(** * poundCake: alert remediation engine, state store and handlers.

    A shallow embedding of [poundcake/models], [poundcake/engine.py],
    [poundcake/config.py] ([load_all_mappings]), [poundcake/stackstorm.py]
    (as the engine uses it, and [wait_for_execution]),
    [poundcake/state/memory.py], [poundcake/state/redis_store.py] and
    [poundcake/handlers/{base,registry,yaml_config,examples}.py].

    Conventions:
    - a Python [datetime] is a [nat] (a reading of the clock);
    - a Python [int] is a [Z];
    - a [dict[str, str]] whose iteration order matters is an association
      list; [dict_get] returns the value of the key (first binding), and
      [dict_set] overwrites in place or appends, as Python's [d[k] = v];
    - an exception is the [inl] side of a sum carrying its message. *)

From Stdlib Require Import String ZArith Bool List PrimFloat.
From stdpp Require Import base gmap sets list strings pretty.

Open Scope string_scope.

(* ------------------------------------------------------------------ *)
(** ** Python dictionaries with insertion order *)

Definition dict (V : Type) := list (string * V).

Fixpoint dict_get {V} (d : dict V) (k : string) : option V :=
  match d with
  | [] => None
  | (k', v) :: d' => if String.eqb k k' then Some v else dict_get d' k
  end.

(** [d.get(k, default)] *)
Definition dict_get_or {V} (d : dict V) (k : string) (dflt : V) : V :=
  match dict_get d k with Some v => v | None => dflt end.

(** [d[k] = v]: an existing key keeps its position. *)
Fixpoint dict_set {V} (d : dict V) (k : string) (v : V) : dict V :=
  match d with
  | [] => [(k, v)]
  | (k', v') :: d' =>
      if String.eqb k k' then (k', v) :: d' else (k', v') :: dict_set d' k v
  end.

(** [d.update(e)] *)
Definition dict_update {V} (d e : dict V) : dict V :=
  fold_left (fun acc kv => dict_set acc kv.1 kv.2) e d.

Definition dict_mem {V} (d : dict V) (k : string) : bool :=
  match dict_get d k with Some _ => true | None => false end.

(* ------------------------------------------------------------------ *)
(** ** models/alerts.py *)

Inductive AlertStatus := FIRING | RESOLVED_.

Record Alert := mkAlert {
  a_status : AlertStatus;
  a_labels : dict string;
  a_annotations : dict string;
  a_starts_at : nat;
  a_ends_at : nat;
  a_generator_url : string;
  a_fingerprint : string
}.

Definition alertname (a : Alert) : string := dict_get_or (a_labels a) "alertname" "unknown".
Definition severity (a : Alert) : string := dict_get_or (a_labels a) "severity" "unknown".
Definition instance (a : Alert) : string := dict_get_or (a_labels a) "instance" "unknown".

(* ------------------------------------------------------------------ *)
(** ** models/tracking.py *)

Inductive AlertTrackingStatus := RECEIVED | PENDING | REMEDIATING | REMEDIATED | RESOLVED.

Definition status_eqb (x y : AlertTrackingStatus) : bool :=
  match x, y with
  | RECEIVED, RECEIVED | PENDING, PENDING | REMEDIATING, REMEDIATING
  | REMEDIATED, REMEDIATED | RESOLVED, RESOLVED => true
  | _, _ => false
  end.

Record RemediationAttempt := mkAttempt {
  at_action_name : string;
  at_stackstorm_action : string;
  at_status : string;  (* success, failed, running *)
  at_started_at : nat;
  at_completed_at : option nat;
  at_execution_id : option string;
  at_error : option string
}.

Record TrackedAlert := mkTracked {
  fingerprint : string;
  t_alertname : string;
  t_instance : option string;
  t_severity : option string;
  t_labels : dict string;
  t_annotations : dict string;
  status : AlertTrackingStatus;
  received_at : nat;
  status_changed_at : nat;
  resolved_at : option nat;
  remediation_attempts : list RemediationAttempt;
  total_attempts : Z;
  successful_attempts : Z;
  failed_attempts : Z;
  processed_by : option string;
  last_error : option string
}.

(** [TrackedAlert.add_remediation_attempt] *)
Definition add_remediation_attempt (t : TrackedAlert) (a : RemediationAttempt) : TrackedAlert :=
  let succ := if String.eqb (at_status a) "success"
              then (successful_attempts t + 1)%Z else successful_attempts t in
  let fail := if String.eqb (at_status a) "success" then failed_attempts t
              else if String.eqb (at_status a) "failed"
              then (failed_attempts t + 1)%Z else failed_attempts t in
  mkTracked (fingerprint t) (t_alertname t) (t_instance t) (t_severity t)
    (t_labels t) (t_annotations t) (status t) (received_at t)
    (status_changed_at t) (resolved_at t)
    (remediation_attempts t ++ [a]) (total_attempts t + 1)%Z succ fail
    (processed_by t) (last_error t).

(** [TrackedAlert.update_status] *)
Definition update_status (t : TrackedAlert) (new_status : AlertTrackingStatus)
    (timestamp : nat) : TrackedAlert :=
  mkTracked (fingerprint t) (t_alertname t) (t_instance t) (t_severity t)
    (t_labels t) (t_annotations t) new_status (received_at t) timestamp
    (if status_eqb new_status RESOLVED then Some timestamp else resolved_at t)
    (remediation_attempts t) (total_attempts t) (successful_attempts t)
    (failed_attempts t) (processed_by t) (last_error t).

Definition set_processed_by (t : TrackedAlert) (p : option string) : TrackedAlert :=
  mkTracked (fingerprint t) (t_alertname t) (t_instance t) (t_severity t)
    (t_labels t) (t_annotations t) (status t) (received_at t)
    (status_changed_at t) (resolved_at t) (remediation_attempts t)
    (total_attempts t) (successful_attempts t) (failed_attempts t) p (last_error t).

Definition set_last_error (t : TrackedAlert) (e : option string) : TrackedAlert :=
  mkTracked (fingerprint t) (t_alertname t) (t_instance t) (t_severity t)
    (t_labels t) (t_annotations t) (status t) (received_at t)
    (status_changed_at t) (resolved_at t) (remediation_attempts t)
    (total_attempts t) (successful_attempts t) (failed_attempts t)
    (processed_by t) e.

(** A sequence of [add_remediation_attempt] calls. *)
Definition add_attempts (t : TrackedAlert) (l : list RemediationAttempt) : TrackedAlert :=
  fold_left add_remediation_attempt l t.

(** The counter fields' intended values, computed from the attempt list. *)
Definition count_status (s : string) (l : list RemediationAttempt) : nat :=
  length (List.filter (fun a => String.eqb (at_status a) s) l).

(* ------------------------------------------------------------------ *)
(** ** A state and exception monad for the [async] code

    [SM S A] runs against a state [S] and either returns an [A] ([inr]) or
    raises an exception ([inl], its message). [await] is sequencing. *)

Definition SM (S A : Type) : Type := S -> S * (string + A).

Global Instance SM_ret {S} : MRet (SM S) := fun A x s => (s, inr x).
Global Instance SM_bind {S} : MBind (SM S) := fun A B f m s =>
  match m s with
  | (s', inl e) => (s', inl e)
  | (s', inr x) => f x s'
  end.

Definition raise {S A} (e : string) : SM S A := fun s => (s, inl e).
Definition sm_get {S} : SM S S := fun s => (s, inr s).
Definition sm_put {S} (s' : S) : SM S unit := fun _ => (s', inr ()).

(* ------------------------------------------------------------------ *)
(** ** state/memory.py: [MemoryStateStore]

    [m_locks] holds the [asyncio.Lock] of each key as its [locked()] flag. *)

Record MemoryStateStore := mkMem {
  m_alerts : gmap string TrackedAlert;
  m_locks : gmap string bool;
  m_active_locks : gset string
}.

(** The engine's state: the store and the wall clock read by
    [datetime.now(timezone.utc)]. *)
Record EngineSt := mkEngineSt {
  es_store : MemoryStateStore;
  es_clock : nat
}.

Definition set_store (s : EngineSt) (ms : MemoryStateStore) : EngineSt :=
  mkEngineSt ms (es_clock s).

(** [datetime.now(timezone.utc)]: reads the clock, which then advances. *)
Definition now_utc : SM EngineSt nat :=
  fun s => (mkEngineSt (es_store s) (S (es_clock s)), inr (es_clock s)).

(** [MemoryStateStore.get_alert] *)
Definition get_alert (fp : string) : SM EngineSt (option TrackedAlert) :=
  fun s => (s, inr (m_alerts (es_store s) !! fp)).

(** [MemoryStateStore.save_alert] *)
Definition save_alert (t : TrackedAlert) : SM EngineSt unit :=
  fun s => let ms := es_store s in
    (set_store s (mkMem (<[fingerprint t := t]> (m_alerts ms)) (m_locks ms) (m_active_locks ms)),
     inr ()).

Definition mem_lock_locked (ms : MemoryStateStore) (key : string) : bool :=
  match m_locks ms !! key with Some true => true | _ => false end.

(** [asyncio.Lock.release]: raises when the lock is not locked. *)
Definition mem_release (key : string) (ms : MemoryStateStore) : MemoryStateStore * option string :=
  let active := m_active_locks ms ∖ {[key]} in
  if mem_lock_locked ms key
  then (mkMem (m_alerts ms) (<[key := false]> (m_locks ms)) active, None)
  else (mkMem (m_alerts ms) (m_locks ms) active, Some "Lock is not acquired.").

(** [MemoryStateStore.lock] as used by [async with ... as acquired: body]. *)
Definition mem_lock {A} (key : string) (body : bool -> SM EngineSt A) : SM EngineSt A :=
  fun s =>
    let ms := es_store s in
    (* if key not in self._locks: self._locks[key] = asyncio.Lock() *)
    let locks := match m_locks ms !! key with
                 | Some _ => m_locks ms
                 | None => <[key := false]> (m_locks ms)
                 end in
    let ms0 := mkMem (m_alerts ms) locks (m_active_locks ms) in
    (* acquired = lock.locked() is False *)
    let acquired := negb (mem_lock_locked ms0 key) in
    let ms1 := if acquired
               then mkMem (m_alerts ms0) (<[key := true]> locks) ({[key]} ∪ m_active_locks ms0)
               else ms0 in
    let '(s2, r) := body acquired (set_store s ms1) in
    (* finally: if acquired: discard; release *)
    if acquired then
      let '(ms3, err) := mem_release key (es_store s2) in
      (set_store s2 ms3, match err with Some e => inl e | None => r end)
    else (s2, r).

(* ------------------------------------------------------------------ *)
(** ** state/redis_store.py: [RedisStateStore.lock]

    [r_connected] says whether [self._client] is set; [r_server] is the
    Redis keyspace of the lock keys (value: the acquisition time); [r_clock]
    is the current time in milliseconds since the epoch; [r_lock_timeout] is
    [self._lock_timeout] (the [LOCK_TIMEOUT_SECONDS] setting). The elapsing
    of a key's expiry is real time and is not modelled. *)

Record RedisStore := mkRedis {
  r_connected : bool;
  r_server : gmap string nat;
  r_clock : nat;
  r_lock_timeout : Z
}.

Definition LOCK_PREFIX : string := "poundcake:lock:".
Definition lock_key (key : string) : string := LOCK_PREFIX ++ key.

Definition redis_held (rs : RedisStore) (key : string) : bool :=
  match r_server rs !! lock_key key with Some _ => true | None => false end.

(** [LLONG_MAX] and [LLONG_MIN]: 2^63 - 1 and -2^63. *)
Definition LLONG_MAX : Z := 9223372036854775807%Z.
Definition LLONG_MIN : Z := (-9223372036854775808)%Z.

(** The check of a relative expiry in seconds, [EX] of SET or the time of
    SETEX, made by the Redis server (7.x, [getExpireMillisecondsOrReply])
    before the command touches the key, at time [now_ms]: redis-py raises
    [ResponseError] with the server's message when it fails. *)
Definition redis_check_expire (cmd : string) (now_ms ex : Z) : option string :=
  if ((ex <? LLONG_MIN) || (LLONG_MAX <? ex))%Z
  then Some "ResponseError: value is not an integer or out of range"
  else if ((ex <=? 0) || (LLONG_MAX / 1000 <? ex) || (LLONG_MAX <? ex * 1000 + now_ms))%Z
  then Some ("ResponseError: invalid expire time in '" ++ cmd ++ "' command")
  else None.

(** [lock_timeout = timeout or self._lock_timeout]: [None] and [0] are
    falsy. *)
Definition redis_lock_timeout (timeout : option Z) (rs : RedisStore) : Z :=
  match timeout with
  | Some t => if Z.eqb t 0 then r_lock_timeout rs else t
  | None => r_lock_timeout rs
  end.

Definition redis_lock {A} (key : string) (timeout : option Z) (body : bool -> SM RedisStore A)
    : SM RedisStore A :=
  fun rs =>
    if negb (r_connected rs) then (rs, inl "Redis client not connected") else
    let lk := lock_key key in
    let lock_timeout := redis_lock_timeout timeout rs in
    (* SET lk now NX EX lock_timeout *)
    match redis_check_expire "set" (Z.of_nat (r_clock rs)) lock_timeout with
    | Some e => (rs, inl e)
    | None =>
      let acquired := negb (redis_held rs key) in
      let rs1 := if acquired
                 then mkRedis (r_connected rs) (<[lk := r_clock rs]> (r_server rs)) (r_clock rs)
                              (r_lock_timeout rs)
                 else rs in
      let '(rs2, r) := body acquired rs1 in
      if acquired then
        (* await self._client.delete(lock_key) *)
        if r_connected rs2
        then (mkRedis (r_connected rs2) (delete lk (r_server rs2)) (r_clock rs2) (r_lock_timeout rs2), r)
        else (rs2, inl "'NoneType' object has no attribute 'delete'")
      else (rs2, r)
    end.

(** Redis accepts the lock's expiry: SET ... EX does not raise. *)
Definition redis_lock_expiry_ok (timeout : option Z) (rs : RedisStore) : bool :=
  match redis_check_expire "set" (Z.of_nat (r_clock rs)) (redis_lock_timeout timeout rs) with
  | None => true
  | Some _ => false
  end.

(* ------------------------------------------------------------------ *)
(** ** Python [str.replace(old, new)]: every non-overlapping occurrence,
    left to right. *)

Fixpoint replace_fuel (fuel : nat) (old new s : string) : string :=
  match fuel with
  | O => s
  | S f =>
      match s with
      | EmptyString => EmptyString
      | String c rest =>
          if String.prefix old s
          then new ++ replace_fuel f old new
                 (substring (String.length old) (String.length s - String.length old) s)
          else String c (replace_fuel f old new rest)
      end
  end.

(** With an empty [old], Python inserts [new] around every character. *)
Fixpoint interleave (new s : string) : string :=
  match s with
  | EmptyString => new
  | String c rest => new ++ String c (interleave new rest)
  end.

Definition py_replace (s old new : string) : string :=
  if String.eqb old "" then interleave new s
  else replace_fuel (String.length s) old new s.

(* ------------------------------------------------------------------ *)
(** ** models/remediation.py *)

(** A parameter value ([Any] in [dict[str, Any]]). *)
Inductive PValue :=
| PStr (s : string)
| PInt (z : Z)
| PBool (b : bool)
| PDict (d : dict string)
| PNone.

Record RemediationAction := mkAction {
  ra_name : string;
  ra_description : string;
  ra_stackstorm_action : string;
  ra_parameters : dict PValue;
  ra_timeout : Z;
  ra_retry_count : Z;
  ra_retry_delay : Z
}.

Inductive RemediationStatus := RS_PENDING | RS_RUNNING | RS_SUCCESS | RS_FAILED | RS_SKIPPED.

(** [RemediationResult]; its [output] payload is not modelled. *)
Record RemediationResult := mkResult {
  rr_alert_fingerprint : string;
  rr_alert_name : string;
  rr_action_name : string;
  rr_status : RemediationStatus;
  rr_started_at : nat;
  rr_completed_at : option nat;
  rr_stackstorm_execution_id : option string;
  rr_error : option string
}.

(* ------------------------------------------------------------------ *)
(** ** The YAML mapping files (config.py [load_all_mappings])

    A mapping entry is the YAML dict of one alert name. A key that is absent
    is [None]. *)

Inductive SeverityCond := SevStr (s : string) | SevList (l : list string).

Record Conditions := mkConditions {
  c_severity : option SeverityCond;
  c_labels : option (dict string);
  c_has_labels : option (list string)
}.

Record ActionConfig := mkActionConfig {
  ac_name : option string;
  ac_description : option string;
  ac_action : option string;
  ac_parameters : option (dict PValue);
  ac_conditions : option Conditions;
  ac_timeout : option Z;
  ac_retry_count : option Z;
  ac_retry_delay : option Z
}.

Record Mapping := mkMapping {
  mp_handler : option string;
  mp_actions : option (list ActionConfig);
  mp_other_keys : list string   (* e.g. description *)
}.

(** [{}] *)
Definition empty_mapping : Mapping := mkMapping None None [].

(** Python truthiness of a mapping dict: it has a key. *)
Definition mapping_truthy (m : Mapping) : bool :=
  match mp_handler m, mp_actions m, mp_other_keys m with
  | None, None, [] => false
  | _, _, _ => true
  end.

(* ------------------------------------------------------------------ *)
(** ** handlers/base.py

    A handler with its [name], [can_handle] and [get_actions], each applied
    to the [HandlerContext]'s alert and config. [get_actions] may raise. *)

Record Handler := mkHandler {
  h_name : string;
  h_can_handle : Alert -> Mapping -> bool;
  h_get_actions : Alert -> Mapping -> string + list RemediationAction
}.

(** [BaseHandler.build_parameters] *)
Definition build_parameters (a : Alert) : dict PValue :=
  [("alert_name", PStr (alertname a));
   ("alert_labels", PDict (a_labels a));
   ("alert_annotations", PDict (a_annotations a));
   ("instance", PStr (instance a));
   ("severity", PStr (severity a))].

(* ------------------------------------------------------------------ *)
(** ** handlers/yaml_config.py: [YAMLConfigHandler] *)

Definition yaml_can_handle (a : Alert) (config : Mapping) : bool :=
  mapping_truthy config &&
  match mp_actions config with Some (_ :: _) => true | _ => false end.

Definition conditions_empty (c : Conditions) : bool :=
  match c_severity c, c_labels c, c_has_labels c with
  | None, None, None => true
  | _, _, _ => false
  end.

(** The three checks of [YAMLConfigHandler._check_conditions]. *)
Definition severity_ok (a : Alert) (conditions : Conditions) : bool :=
  match c_severity conditions with
  | None => true
  | Some sc =>
      let allowed_severities := match sc with SevStr s => [s] | SevList l => l end in
      existsb (String.eqb (severity a)) allowed_severities
  end.

Definition labels_ok (a : Alert) (conditions : Conditions) : bool :=
  match c_labels conditions with
  | None => true
  | Some ls =>
      forallb (fun kv => match dict_get (a_labels a) kv.1 with
                         | Some v => String.eqb v kv.2
                         | None => false
                         end) ls
  end.

Definition has_labels_ok (a : Alert) (conditions : Conditions) : bool :=
  match c_has_labels conditions with
  | None => true
  | Some hl => forallb (dict_mem (a_labels a)) hl
  end.

(** [YAMLConfigHandler._check_conditions] *)
Definition check_conditions (a : Alert) (ac : ActionConfig) : bool :=
  match ac_conditions ac with
  | None => true
  | Some conditions =>
      if conditions_empty conditions then true else
      severity_ok a conditions && labels_ok a conditions && has_labels_ok a conditions
  end.

(** The string substitutions of [_apply_templates] on one value. *)
Definition template_string (a : Alert) (v : string) : string :=
  let v := py_replace v "{{alertname}}" (alertname a) in
  let v := py_replace v "{{instance}}" (instance a) in
  let v := py_replace v "{{severity}}" (severity a) in
  let v := fold_left (fun v kv => py_replace v ("{{labels." ++ kv.1 ++ "}}") kv.2)
             (a_labels a) v in
  fold_left (fun v kv => py_replace v ("{{annotations." ++ kv.1 ++ "}}") kv.2)
    (a_annotations a) v.

(** [if isinstance(value, str): ...] *)
Definition template_value (a : Alert) (v : PValue) : PValue :=
  match v with PStr s => PStr (template_string a s) | v => v end.

(** [YAMLConfigHandler._apply_templates] *)
Definition apply_templates (parameters : dict PValue) (a : Alert) : dict PValue :=
  fold_left (fun result kv => dict_set result kv.1 (template_value a kv.2)) parameters [].

(** The body of the loop of [YAMLConfigHandler.get_actions] for a kept
    action: [action_config.get("name", action_config["action"])] evaluates
    [action_config["action"]] first, so a missing "action" raises. *)
Definition build_action (a : Alert) (ac : ActionConfig) : string + RemediationAction :=
  match ac_action ac with
  | None => inl "KeyError: 'action'"
  | Some act =>
      let parameters := dict_update (default [] (ac_parameters ac)) (build_parameters a) in
      let parameters := apply_templates parameters a in
      inr (mkAction (default act (ac_name ac)) (default "" (ac_description ac)) act
             parameters (default 300%Z (ac_timeout ac))
             (default 0%Z (ac_retry_count ac)) (default 30%Z (ac_retry_delay ac)))
  end.

(** [YAMLConfigHandler.get_actions] *)
Fixpoint yaml_actions_loop (a : Alert) (acs : list ActionConfig) : string + list RemediationAction :=
  match acs with
  | [] => inr []
  | ac :: rest =>
      if negb (check_conditions a ac) then yaml_actions_loop a rest
      else match build_action a ac with
           | inl e => inl e
           | inr act =>
               match yaml_actions_loop a rest with
               | inl e => inl e
               | inr acts => inr (act :: acts)
               end
           end
  end.

Definition yaml_get_actions (a : Alert) (config : Mapping) : string + list RemediationAction :=
  yaml_actions_loop a (default [] (mp_actions config)).

Definition YAMLConfigHandler : Handler :=
  mkHandler "yaml_config" yaml_can_handle yaml_get_actions.

(* ------------------------------------------------------------------ *)
(** ** handlers/registry.py: [HandlerRegistry] *)

Record HandlerRegistry := mkRegistry {
  reg_handlers : dict Handler;
  reg_mappings : dict Mapping
}.

(** [HandlerRegistry.register] *)
Definition register (r : HandlerRegistry) (h : Handler) : HandlerRegistry :=
  mkRegistry (dict_set (reg_handlers r) (h_name h) h) (reg_mappings r).

(** [HandlerRegistry.find_handlers] *)
Definition find_handlers (r : HandlerRegistry) (a : Alert) : list (Handler * Mapping) :=
  let mapped :=
    match dict_get (reg_mappings r) (alertname a) with
    | Some mapping =>
        if mapping_truthy mapping then
          match dict_get (reg_handlers r) (default "yaml_config" (mp_handler mapping)) with
          | Some h => if h_can_handle h a mapping then [(h, mapping)] else []
          | None => []
          end
        else []
    | None => []
    end in
  (mapped ++
  flat_map (fun nh =>
      let h := nh.2 in
      if String.eqb (h_name h) "yaml_config" then []
      else if h_can_handle h a empty_mapping then [(h, empty_mapping)] else [])
    (reg_handlers r))%list.

Fixpoint collect_actions (a : Alert) (hs : list (Handler * Mapping)) : string + list RemediationAction :=
  match hs with
  | [] => inr []
  | (h, config) :: rest =>
      match h_get_actions h a config with
      | inl e => inl e
      | inr acts =>
          match collect_actions a rest with
          | inl e => inl e
          | inr more => inr (acts ++ more)%list
          end
      end
  end.

(** [HandlerRegistry.get_actions_for_alert] *)
Definition get_actions_for_alert (r : HandlerRegistry) (a : Alert) : string + list RemediationAction :=
  collect_actions a (find_handlers r a).

(* ------------------------------------------------------------------ *)
(** ** stackstorm.py, as the engine consumes it

    [execute_action] returns the execution's ["id"] (["" when absent]);
    [wait_for_execution] returns the final ["status"] and the result's
    ["stderr"] when present. Both may raise a [StackStormError] or another
    exception. *)

Inductive ClientError := StackStormError (msg : string) | OtherError (msg : string).

Record JobClient := mkClient {
  execute_action : RemediationAction -> ClientError + string;
  wait_for_execution : string -> Z -> ClientError + (string * option string)
}.

(* ------------------------------------------------------------------ *)
(** ** engine.py: [RemediationEngine] *)

Record RemediationEngine := mkEngine {
  eng_registry : HandlerRegistry;
  eng_client : JobClient;
  eng_instance_id : string
}.

(** The outcome of the [try] block of [_execute_action]: the result
    status, its error, the execution id and the attempt status. *)
Definition run_action (client : JobClient) (action : RemediationAction)
    : RemediationStatus * option string * option string * string :=
  let on_error (e : ClientError) exec_id :=
    match e with
    | StackStormError m => (RS_FAILED, Some m, exec_id, "failed")
    | OtherError m => (RS_FAILED, Some ("Unexpected error: " ++ m), exec_id, "failed")
    end in
  match execute_action client action with
  | inl e => on_error e None
  | inr execution_id =>
      if (0 <? ra_timeout action)%Z then
        match wait_for_execution client execution_id (ra_timeout action) with
        | inl e => on_error e (Some execution_id)
        | inr (st, stderr) =>
            if String.eqb st "succeeded"
            then (RS_SUCCESS, None, Some execution_id, "success")
            else (RS_FAILED, Some (default ("Execution " ++ st) stderr),
                  Some execution_id, "failed")
        end
      else (RS_SUCCESS, None, Some execution_id, "success")
  end.

(** [RemediationEngine._execute_action]; the mutated [tracked] is returned. *)
Definition execute_action_step (eng : RemediationEngine) (a : Alert)
    (action : RemediationAction) (tracked : TrackedAlert)
    : SM EngineSt (RemediationResult * TrackedAlert) :=
  now ← now_utc;
  let '(st, err, exec_id, att_st) := run_action (eng_client eng) action in
  completed ← now_utc;
  let result := mkResult (a_fingerprint a) (alertname a) (ra_name action) st now
                  (Some completed) exec_id err in
  let attempt := mkAttempt (ra_name action) (ra_stackstorm_action action) att_st now
                   (Some completed) exec_id err in
  let t := add_remediation_attempt tracked attempt in
  let t := match err with
           | Some e => if String.eqb e "" then t else set_last_error t (Some e)
           | None => t
           end in
  save_alert t;;
  mret (result, t).

(** The [for action in actions] loop of [process_alert]. *)
Fixpoint execute_all (eng : RemediationEngine) (a : Alert) (actions : list RemediationAction)
    (tracked : TrackedAlert) : SM EngineSt (list RemediationResult * TrackedAlert) :=
  match actions with
  | [] => mret ([], tracked)
  | action :: rest =>
      '(r, t) ← execute_action_step eng a action tracked;
      '(rs, t') ← execute_all eng a rest t;
      mret (r :: rs, t')
  end.

(** [RemediationEngine._handle_resolved_alert] *)
Definition handle_resolved_alert (a : Alert) : SM EngineSt (list RemediationResult) :=
  tracked ← get_alert (a_fingerprint a);
  match tracked with
  | None => mret []
  | Some t =>
      if status_eqb (status t) RESOLVED then mret [] else
      ts ← now_utc;
      save_alert (update_status t RESOLVED ts);;
      mret []
  end.

Definition new_tracked (eng : RemediationEngine) (a : Alert) (now : nat) : TrackedAlert :=
  mkTracked (a_fingerprint a) (alertname a) (Some (instance a)) (Some (severity a))
    (a_labels a) (a_annotations a) RECEIVED now now None [] 0%Z 0%Z 0%Z
    (Some (eng_instance_id eng)) None.

(** The body of [async with self._state_store.lock(...) as acquired]. *)
Definition process_locked (eng : RemediationEngine) (a : Alert) (now : nat) (acquired : bool)
    : SM EngineSt (list RemediationResult) :=
  if negb acquired then mret [] else
  found ← get_alert (a_fingerprint a);
  tracked ← match found with
            | None => let t := new_tracked eng a now in save_alert t;; mret t
            | Some t => mret t
            end;
  if status_eqb (status tracked) RESOLVED then mret [] else
  match get_actions_for_alert (eng_registry eng) a with
  | inl e => raise e
  | inr [] =>
      save_alert (update_status tracked REMEDIATED now);;
      mret []
  | inr actions =>
      let t := set_processed_by (update_status tracked REMEDIATING now)
                 (Some (eng_instance_id eng)) in
      save_alert t;;
      '(results, t') ← execute_all eng a actions t;
      ts ← now_utc;
      save_alert (update_status t' REMEDIATED ts);;
      mret results
  end.

(** [RemediationEngine.process_alert] *)
Definition process_alert (eng : RemediationEngine) (a : Alert) : SM EngineSt (list RemediationResult) :=
  now ← now_utc;
  match a_status a with
  | RESOLVED_ => handle_resolved_alert a
  | FIRING => mem_lock ("alert:" ++ a_fingerprint a) (process_locked eng a now)
  end.

(* ------------------------------------------------------------------ *)
(** ** Running the engine on a sequence of alert events *)

Fixpoint process_all (eng : RemediationEngine) (l : list Alert) : SM EngineSt unit :=
  match l with
  | [] => mret ()
  | a :: rest => fun s => let '(s', _) := process_alert eng a s in process_all eng rest s'
  end.

(* ------------------------------------------------------------------ *)
(** ** Registry resolution as the spec words it

    The action list as section "Registry resolution order" describes it:
    the mapped handler's actions when a (non-empty) static mapping exists and
    its handler reports [can_handle], then, in registration order, the actions
    of every registered handler other than "yaml_config" that reports
    [can_handle] on the empty config; all concatenated, the first exception
    propagating. *)

Fixpoint concat_results {A} (l : list (string + list A)) : string + list A :=
  match l with
  | [] => inr []
  | inl e :: _ => inl e
  | inr x :: rest =>
      match concat_results rest with
      | inl e => inl e
      | inr y => inr (x ++ y)%list
      end
  end.

Definition spec_mapped_actions (r : HandlerRegistry) (a : Alert) : string + list RemediationAction :=
  match dict_get (reg_mappings r) (alertname a) with
  | Some m =>
      if mapping_truthy m then
        match dict_get (reg_handlers r) (default "yaml_config" (mp_handler m)) with
        | Some h => if h_can_handle h a m then h_get_actions h a m else inr []
        | None => inr []
        end
      else inr []
  | None => inr []
  end.

Definition spec_probed_handlers (r : HandlerRegistry) (a : Alert) : list Handler :=
  List.filter (fun h => negb (String.eqb (h_name h) "yaml_config") && h_can_handle h a empty_mapping)
    (map snd (reg_handlers r)).

Definition spec_actions_for_alert (r : HandlerRegistry) (a : Alert) : string + list RemediationAction :=
  concat_results (spec_mapped_actions r a
                  :: map (fun h => h_get_actions h a empty_mapping) (spec_probed_handlers r a)).

(* ------------------------------------------------------------------ *)
(** ** state/memory.py: the other operations of [MemoryStateStore] *)

(** [MemoryStateStore.delete_alert] *)
Definition mem_delete_alert (fp : string) : SM EngineSt bool :=
  fun s => let ms := es_store s in
    match m_alerts ms !! fp with
    | Some _ =>
        (set_store s (mkMem (delete fp (m_alerts ms)) (m_locks ms) (m_active_locks ms)), inr true)
    | None => (s, inr false)
    end.

(** [MemoryStateStore.is_locked] *)
Definition mem_is_locked (key : string) : SM EngineSt bool :=
  fun s => (s, inr (bool_decide (key ∈ m_active_locks (es_store s)))).

(** [AlertTrackingStatus.value] *)
Definition status_value (st : AlertTrackingStatus) : string :=
  match st with
  | RECEIVED => "received"
  | PENDING => "pending"
  | REMEDIATING => "remediating"
  | REMEDIATED => "remediated"
  | RESOLVED => "resolved"
  end.

(** [alerts.sort(key=lambda a: a.received_at, reverse=True)]: Python's sort
    is stable also with [reverse=True], so alerts received at the same time
    keep their order. An insertion sort. *)
Fixpoint insert_desc (x : TrackedAlert) (l : list TrackedAlert) : list TrackedAlert :=
  match l with
  | [] => [x]
  | y :: l' => if Nat.ltb (received_at y) (received_at x) then x :: l else y :: insert_desc x l'
  end.

Definition sort_received_desc (l : list TrackedAlert) : list TrackedAlert :=
  fold_left (fun acc x => insert_desc x acc) l [].

(** A bound of a Python slice: a negative index counts from the end, and
    the result is clamped to [0, n]. *)
Definition py_slice_index (n i : Z) : Z :=
  if (i <? 0)%Z then Z.max 0 (i + n) else Z.min i n.

(** [l[start:stop]] *)
Definition py_slice {A} (l : list A) (start stop : Z) : list A :=
  let n := Z.of_nat (length l) in
  let b := py_slice_index n start in
  let e := py_slice_index n stop in
  firstn (Z.to_nat (e - b)) (skipn (Z.to_nat b) l).

(** [if status:]: [None] and [""] are false. *)
Definition status_filter (status_arg : option string) : option string :=
  match status_arg with
  | Some s => if String.eqb s "" then None else Some s
  | None => None
  end.

(** [MemoryStateStore.list_alerts], applied to [list(self._alerts.values())]:
    the stored alerts in the dict's insertion order. *)
Definition list_alerts_of (alerts : list TrackedAlert) (status_arg : option string)
    (limit offset : Z) : list TrackedAlert :=
  let alerts := match status_filter status_arg with
                | Some s => List.filter (fun t => String.eqb (status_value (status t)) s) alerts
                | None => alerts
                end in
  let alerts := sort_received_desc alerts in
  py_slice alerts offset (offset + limit).

(** [AlertStats] *)
Record AlertStats := mkStats {
  st_total : Z;
  st_by_status : dict Z;
  st_by_severity : dict Z
}.

(** [d[k] = d.get(k, 0) + 1] *)
Definition dict_incr (d : dict Z) (k : string) : dict Z :=
  dict_set d k (dict_get_or d k 0%Z + 1)%Z.

(** [alert.severity or "unknown"] *)
Definition severity_or_unknown (t : TrackedAlert) : string :=
  match t_severity t with
  | Some s => if String.eqb s "" then "unknown" else s
  | None => "unknown"
  end.

(** One iteration of the loop of [MemoryStateStore.get_stats]. *)
Definition stats_step (stats : AlertStats) (t : TrackedAlert) : AlertStats :=
  mkStats (st_total stats + 1)%Z
    (dict_incr (st_by_status stats) (status_value (status t)))
    (dict_incr (st_by_severity stats) (severity_or_unknown t)).

(** [MemoryStateStore.get_stats], applied to [self._alerts.values()]. *)
Definition get_stats_of (alerts : list TrackedAlert) : AlertStats :=
  fold_left stats_step alerts (mkStats 0 [] []).

(* ------------------------------------------------------------------ *)
(** ** state/redis_store.py: the alert keys and the status index

    [rd_connected] says whether [self._client] is set. [rd_strings] is the
    Redis keyspace of string keys: each value is the [TrackedAlert] its JSON
    text decodes to ([_deserialize_alert] inverts [_serialize_alert]; the
    text is never empty, so [if data:] holds), with the key's TTL in seconds
    when one is set. [rd_sets] holds the set keys; a missing key reads as the
    empty set, as SMEMBERS and SCARD do. [rd_alert_ttl_hours] is
    [self._alert_ttl_hours] (the [ALERT_TTL_HOURS] setting) and [rd_now_ms]
    the current time in milliseconds since the epoch. The lock keys are the
    separate [RedisStore] above. *)
Record RedisDB := mkRedisDB {
  rd_connected : bool;
  rd_strings : gmap string (TrackedAlert * option Z);
  rd_sets : gmap string (gset string);
  rd_alert_ttl_hours : Z;
  rd_now_ms : Z
}.

Definition ALERT_PREFIX : string := "poundcake:alert:".
Definition INDEX_PREFIX : string := "poundcake:index:".

(** [_alert_key] *)
Definition alert_key (fp : string) : string := ALERT_PREFIX ++ fp.

(** [f"{self.INDEX_PREFIX}status:{value}"] *)
Definition index_key (v : string) : string := INDEX_PREFIX ++ "status:" ++ v.

(** [for status in AlertTrackingStatus], in declaration order. *)
Definition all_statuses : list AlertTrackingStatus :=
  [RECEIVED; PENDING; REMEDIATING; REMEDIATED; RESOLVED].

Definition rd_set_strings (db : RedisDB) (m : gmap string (TrackedAlert * option Z)) : RedisDB :=
  mkRedisDB (rd_connected db) m (rd_sets db) (rd_alert_ttl_hours db) (rd_now_ms db).

Definition rd_set_sets (db : RedisDB) (m : gmap string (gset string)) : RedisDB :=
  mkRedisDB (rd_connected db) (rd_strings db) m (rd_alert_ttl_hours db) (rd_now_ms db).

(** SMEMBERS *)
Definition smembers (db : RedisDB) (k : string) : gset string := default ∅ (rd_sets db !! k).

(** SREM and SADD of one member. *)
Definition srem (k m : string) : SM RedisDB unit :=
  fun db => (rd_set_sets db (<[k := smembers db k ∖ {[m]}]> (rd_sets db)), inr ()).

Definition sadd (k m : string) : SM RedisDB unit :=
  fun db => (rd_set_sets db (<[k := {[m]} ∪ smembers db k]> (rd_sets db)), inr ()).

(** GET, SET (which drops a TTL the key had), SETEX and DEL of one key. *)
Definition redis_get (k : string) : SM RedisDB (option TrackedAlert) :=
  fun db => (db, inr (option_map fst (rd_strings db !! k))).

Definition redis_set (k : string) (v : TrackedAlert) (ttl : option Z) : SM RedisDB unit :=
  fun db => (rd_set_strings db (<[k := (v, ttl)]> (rd_strings db)), inr ()).

Definition redis_setex (k : string) (secs : Z) (v : TrackedAlert) : SM RedisDB unit :=
  fun db => match redis_check_expire "setex" (rd_now_ms db) secs with
            | Some e => (db, inl e)
            | None => redis_set k v (Some secs) db
            end.

Definition redis_delete (k : string) : SM RedisDB Z :=
  fun db => match rd_strings db !! k with
            | Some _ => (rd_set_strings db (delete k (rd_strings db)), inr 1%Z)
            | None => (db, inr 0%Z)
            end.

(** KEYS poundcake:alert:* (in no particular order). *)
Definition redis_alert_keys (db : RedisDB) : list string :=
  List.filter (String.prefix ALERT_PREFIX) (map fst (map_to_list (rd_strings db))).

(** Redis dropping a key once its TTL has elapsed. *)
Definition redis_expire (k : string) (db : RedisDB) : RedisDB :=
  match rd_strings db !! k with
  | Some (_, Some _) => rd_set_strings db (delete k (rd_strings db))
  | _ => db
  end.

Definition not_connected {A} : SM RedisDB A := raise "Redis client not connected".

Fixpoint srem_all (sts : list AlertTrackingStatus) (m : string) : SM RedisDB unit :=
  match sts with
  | [] => mret ()
  | st :: rest => srem (index_key (status_value st)) m;; srem_all rest m
  end.

(** [RedisStateStore._update_status_index] *)
Definition rd_update_status_index (t : TrackedAlert) : SM RedisDB unit :=
  fun db =>
    if negb (rd_connected db) then (db, inr ()) else
    (srem_all all_statuses (fingerprint t);;
     sadd (index_key (status_value (status t))) (fingerprint t)) db.

(** [RedisStateStore.get_alert] *)
Definition rd_get_alert (fp : string) : SM RedisDB (option TrackedAlert) :=
  fun db => if negb (rd_connected db) then not_connected db else redis_get (alert_key fp) db.

(** [RedisStateStore.save_alert] *)
Definition rd_save_alert (t : TrackedAlert) : SM RedisDB unit :=
  fun db =>
    if negb (rd_connected db) then not_connected db else
    (let key := alert_key (fingerprint t) in
     (if status_eqb (status t) RESOLVED
      then redis_setex key (rd_alert_ttl_hours db * 3600)%Z t
      else redis_set key t None);;
     rd_update_status_index t) db.

(** Redis accepts the TTL of a RESOLVED record: SETEX does not raise. *)
Definition rd_ttl_ok (db : RedisDB) : bool :=
  match redis_check_expire "setex" (rd_now_ms db) (rd_alert_ttl_hours db * 3600) with
  | None => true
  | Some _ => false
  end.

(** [RedisStateStore.delete_alert] *)
Definition rd_delete_alert (fp : string) : SM RedisDB bool :=
  fun db =>
    if negb (rd_connected db) then not_connected db else
    (result ← redis_delete (alert_key fp);
     srem_all all_statuses fp;;
     mret (0 <? result)%Z) db.

(** [fingerprints_list.sort()]: code-point order, which on the UTF-8 bytes
    of a string is their lexicographic order. *)
Fixpoint insert_string (x : string) (l : list string) : list string :=
  match l with
  | [] => [x]
  | y :: l' => if String.leb x y then x :: l else y :: insert_string x l'
  end.

Definition sort_strings (l : list string) : list string :=
  fold_left (fun acc x => insert_string x acc) l [].

(** The fetch loop of [RedisStateStore.list_alerts]. *)
Fixpoint fetch_alerts (fps : list string) : SM RedisDB (list TrackedAlert) :=
  match fps with
  | [] => mret []
  | fp :: rest =>
      o ← rd_get_alert fp;
      alerts ← fetch_alerts rest;
      mret (match o with Some t => t :: alerts | None => alerts end)
  end.

(** [RedisStateStore.list_alerts] *)
Definition rd_list_alerts (status_arg : option string) (limit offset : Z)
    : SM RedisDB (list TrackedAlert) :=
  fun db =>
    if negb (rd_connected db) then not_connected db else
    let fingerprints_list :=
      match status_filter status_arg with
      | Some s => elements (smembers db (index_key s))
      | None => map (fun k => py_replace k ALERT_PREFIX "") (redis_alert_keys db)
      end in
    let paginated := py_slice (sort_strings fingerprints_list) offset (offset + limit) in
    (alerts ← fetch_alerts paginated;
     mret (sort_received_desc alerts)) db.

(** The index loop of [RedisStateStore.get_stats]: total and by_status. *)
Definition rd_count_index (db : RedisDB) : Z * dict Z :=
  fold_left (fun acc st =>
      let count := Z.of_nat (size (smembers db (index_key (status_value st)))) in
      if (0 <? count)%Z then ((acc.1 + count)%Z, dict_set acc.2 (status_value st) count)
      else acc)
    all_statuses (0%Z, []).

(** [RedisStateStore.get_stats] *)
Definition rd_get_stats : SM RedisDB AlertStats :=
  fun db =>
    if negb (rd_connected db) then not_connected db else
    let '(total, by_status) := rd_count_index db in
    let by_severity :=
      fold_left (fun bs key => match rd_strings db !! key with
                               | Some (t, _) => dict_incr bs (severity_or_unknown t)
                               | None => bs
                               end)
        (redis_alert_keys db) [] in
    (db, inr (mkStats total by_status by_severity)).

(** [RedisStateStore.is_locked], on the lock keyspace of [RedisStore]. *)
Definition redis_is_locked (key : string) : SM RedisStore bool :=
  fun rs => if negb (r_connected rs) then (rs, inl "Redis client not connected")
            else (rs, inr (redis_held rs key)).

(* ------------------------------------------------------------------ *)
(** ** handlers/registry.py: the other operations of [HandlerRegistry] *)

(** [del d[k]]; a dict holds each key once, so this drops its binding. *)
Definition dict_del {V} (d : dict V) (k : string) : dict V :=
  List.filter (fun kv => negb (String.eqb k kv.1)) d.

(** [HandlerRegistry.unregister] *)
Definition unregister (r : HandlerRegistry) (handler_name : string) : HandlerRegistry :=
  if dict_mem (reg_handlers r) handler_name
  then mkRegistry (dict_del (reg_handlers r) handler_name) (reg_mappings r)
  else r.

(** [HandlerRegistry.get_handler] *)
Definition get_handler (r : HandlerRegistry) (name : string) : option Handler :=
  dict_get (reg_handlers r) name.

(** [HandlerRegistry.list_handlers] *)
Definition list_handlers (r : HandlerRegistry) : list string := map fst (reg_handlers r).

(* ------------------------------------------------------------------ *)
(** ** config.py: [load_yaml_config] and [load_all_mappings]

    A value as [yaml.safe_load] builds it: None, bool, int, float, str,
    bytes ([!!binary]), [datetime.date] and [datetime.datetime] (given by
    their text), list, tuple (the pairs of [!!omap] and [!!pairs]), set
    ([!!set]) and dict. The keys of a dict are strings (alert names and
    configuration keys); PyYAML's non-string scalar keys are not
    modelled. *)
Inductive YamlValue :=
| YNone
| YBool (b : bool)
| YInt (z : Z)
| YFloat (f : PrimFloat.float)
| YStr (s : string)
| YBytes (b : list Byte.byte)
| YDate (iso : string)
| YDateTime (iso : string)
| YList (l : list YamlValue)
| YTuple (l : list YamlValue)
| YSet (l : list YamlValue)
| YDict (d : list (string * YamlValue)).

(** A mapping file as [load_yaml_config] meets it: [open] or
    [yaml.safe_load] raises (the file cannot be read or decoded, the YAML
    is malformed or holds several documents), with the exception's class,
    or the file holds the document [doc]. *)
Inductive MappingFile := LoadRaises (exc : string) | Loaded (doc : YamlValue).

(** [bool(v)] *)
Definition py_truthy (v : YamlValue) : bool :=
  match v with
  | YNone => false
  | YBool b => b
  | YInt z => negb (Z.eqb z 0)
  | YFloat f => negb (PrimFloat.eqb f 0%float)
  | YStr s => negb (String.eqb s "")
  | YBytes b => match b with [] => false | _ => true end
  | YDate _ | YDateTime _ => true
  | YList l | YTuple l | YSet l => match l with [] => false | _ => true end
  | YDict d => match d with [] => false | _ => true end
  end.

(** [needle in s] for strings: a substring test. *)
Fixpoint str_contains (needle s : string) : bool :=
  String.prefix needle s ||
  match s with
  | EmptyString => false
  | String _ s' => str_contains needle s'
  end.

(** [k in v] for a string [k], or the class of the exception it raises. *)
Definition py_contains_str (k : string) (v : YamlValue) : string + bool :=
  match v with
  | YDict d => inr (dict_mem d k)
  | YList l | YTuple l | YSet l =>
      inr (existsb (fun x => match x with YStr s => String.eqb s k | _ => false end) l)
  | YStr s => inr (str_contains k s)
  (* bytes: "a bytes-like object is required"; the rest: "not iterable" *)
  | _ => inl "TypeError"
  end.

(** [v[k]] for a string [k]: sequences and strings want integer indices,
    sets and scalars are not subscriptable. *)
Definition py_getitem_str (v : YamlValue) (k : string) : string + YamlValue :=
  match v with
  | YDict d => match dict_get d k with Some x => inr x | None => inl "KeyError" end
  | _ => inl "TypeError"
  end.

(** [v.items()]: only a dict has it. *)
Definition py_items (v : YamlValue) : string + list (string * YamlValue) :=
  match v with
  | YDict d => inr d
  | _ => inl "AttributeError"
  end.

(** [load_yaml_config(path)]: [yaml.safe_load(f) or {}]. *)
Definition load_yaml_config (f : MappingFile) : string + YamlValue :=
  match f with
  | LoadRaises e => inl e
  | Loaded doc => inr (if py_truthy doc then doc else YDict [])
  end.

(** The reading half of the loop body:
    [file_mappings = load_yaml_config(f)], [if "alerts" in file_mappings:],
    [file_mappings["alerts"].items()]; [inr None] when the test fails. *)
Definition file_alert_items (f : MappingFile) : string + option (list (string * YamlValue)) :=
  match load_yaml_config f with
  | inl e => inl e
  | inr file_mappings =>
      match py_contains_str "alerts" file_mappings with
      | inl e => inl e
      | inr false => inr None
      | inr true =>
          match py_getitem_str file_mappings "alerts" with
          | inl e => inl e
          | inr v => match py_items v with
                     | inl e => inl e
                     | inr items => inr (Some items)
                     end
          end
      end
  end.

(** The loop body: [for alert_name, config in ...: mappings[alert_name] = config]. *)
Definition load_file (mappings : dict YamlValue) (f : MappingFile) : string + dict YamlValue :=
  match file_alert_items f with
  | inl e => inl e
  | inr None => inr mappings
  | inr (Some items) => inr (fold_left (fun m kv => dict_set m kv.1 kv.2) items mappings)
  end.

Fixpoint load_files (mappings : dict YamlValue) (files : list MappingFile) : string + dict YamlValue :=
  match files with
  | [] => inr mappings
  | f :: rest =>
      match load_file mappings f with
      | inl e => inl e
      | inr m => load_files m rest
      end
  end.

(** [load_all_mappings]: [path_exists] is [mappings_path.exists()], and
    [yaml_files], [yml_files] the files of the two globs in the order the
    globs list them. *)
Definition load_all_mappings (path_exists : bool) (yaml_files yml_files : list MappingFile)
    : string + dict YamlValue :=
  if negb path_exists then inr [] else load_files [] (yaml_files ++ yml_files)%list.

(* ------------------------------------------------------------------ *)
(** ** handlers/examples.py: [get_actions] of the example handlers *)

(** [RemediationAction(name=..., description=..., action=..., parameters=...)]
    with the model's defaults for timeout, retry_count and retry_delay. *)
Definition default_action (name description action : string) (parameters : dict PValue)
    : RemediationAction :=
  mkAction name description action parameters 300 0 30.

(** [{k1: v1, ..., **self.build_parameters(context)}] *)
Definition with_build_parameters (own : dict PValue) (a : Alert) : dict PValue :=
  dict_update own (build_parameters a).

(** [HighCPUHandler.get_actions] *)
Definition high_cpu_get_actions (a : Alert) : list RemediationAction :=
  let sev := severity a in
  let first :=
    if existsb (String.eqb sev) ["warning"; "critical"]
    then [default_action "identify_high_cpu_process" "Identify the process consuming high CPU"
            "linux.top" (with_build_parameters [("host", PStr (instance a))] a)]
    else [] in
  let second :=
    if String.eqb sev "critical" then
      let service := dict_get_or (a_labels a) "service" "" in
      if String.eqb service "" then []
      else [default_action ("restart_" ++ service) ("Restart the " ++ service ++ " service")
              "linux.service"
              (with_build_parameters [("host", PStr (instance a)); ("service", PStr service);
                                      ("action", PStr "restart")] a)]
    else [] in
  (first ++ second)%list.

(** [DiskSpaceHandler.get_actions] *)
Definition disk_space_get_actions (a : Alert) : list RemediationAction :=
  let mount_point := dict_get_or (a_labels a) "mountpoint" "/" in
  [default_action "cleanup_old_logs" "Remove old log files to free up space" "linux.rm"
     (with_build_parameters [("host", PStr (instance a));
                             ("target", PStr (mount_point ++ "/var/log/*.gz"));
                             ("force", PBool true)] a);
   default_action "cleanup_package_cache" "Clean up package manager cache" "linux.apt_clean"
     (with_build_parameters [("host", PStr (instance a))] a)].

(** [ServiceDownHandler.get_actions] *)
Definition service_down_get_actions (a : Alert) : list RemediationAction :=
  let service := dict_get_or (a_labels a) "service" "" in
  let job := dict_get_or (a_labels a) "job" "" in
  let target_service := if String.eqb service "" then job else service in
  if String.eqb target_service "" then [] else
  [default_action ("check_" ++ target_service ++ "_status") ("Check status of " ++ target_service)
     "linux.service"
     (with_build_parameters [("host", PStr (instance a)); ("service", PStr target_service);
                             ("action", PStr "status")] a);
   default_action ("restart_" ++ target_service) ("Restart " ++ target_service ++ " service")
     "linux.service"
     (with_build_parameters [("host", PStr (instance a)); ("service", PStr target_service);
                             ("action", PStr "restart")] a)].

(** [MemoryHandler.get_actions] *)
Definition memory_get_actions (a : Alert) : list RemediationAction :=
  (default_action "clear_system_caches" "Clear system memory caches" "core.remote"
     (with_build_parameters [("hosts", PStr (instance a));
                             ("cmd", PStr "sync; echo 3 > /proc/sys/vm/drop_caches")] a)
   :: (if String.eqb (severity a) "critical"
       then [default_action "identify_memory_hogs" "Identify processes consuming high memory"
               "core.remote"
               (with_build_parameters [("hosts", PStr (instance a));
                                       ("cmd", PStr "ps aux --sort=-%mem | head -20")] a)]
       else []))%list.

(* ------------------------------------------------------------------ *)
(** ** stackstorm.py: [StackStormClient.wait_for_execution]

    [polls n] is the outcome of the n-th [get_execution] call: the
    execution's ["status"] (["" when absent]) and its result's ["stderr"],
    or an exception. [fuel] bounds the iterations; [None] means the loop is
    still polling when it runs out. *)

Definition terminal_status (st : string) : bool :=
  existsb (String.eqb st) ["succeeded"; "failed"; "timeout"; "abandoned"; "canceled"].

Fixpoint wait_loop (polls : nat -> ClientError + (string * option string)) (execution_id : string)
    (timeout poll_interval : Z) (fuel n : nat) (elapsed : Z)
    : option (ClientError + (string * option string)) :=
  match fuel with
  | O => None
  | S f =>
      if (elapsed <? timeout)%Z then
        match polls n with
        | inl e => Some (inl e)
        | inr r => if terminal_status r.1 then Some (inr r)
                   else wait_loop polls execution_id timeout poll_interval f (S n)
                          (elapsed + poll_interval)%Z
        end
      else Some (inl (StackStormError ("Execution " ++ execution_id ++ " timed out after "
                                       ++ pretty timeout ++ "s")))
  end.

(** [wait_for_execution(execution_id, timeout, poll_interval)]; with
    [poll_interval >= 1] the loop makes at most [timeout] polls, so the fuel
    [timeout + 1] suffices. *)
Definition wait_for_execution_impl (polls : nat -> ClientError + (string * option string))
    (execution_id : string) (timeout poll_interval : Z)
    : option (ClientError + (string * option string)) :=
  wait_loop polls execution_id timeout poll_interval (S (Z.to_nat timeout)) 0 0%Z.

(* ------------------------------------------------------------------ *)
(** ** Concrete inputs used by the examples below *)

Definition ex_labels : dict string :=
  [("alertname", "HighCPU"); ("severity", "critical"); ("instance", "node1:9100")].

Definition ex_alert (st : AlertStatus) : Alert :=
  mkAlert st ex_labels [("summary", "cpu is high")] 0 0 "" "fp1".

Definition ex_tracked (st : AlertTrackingStatus) (res : option nat) : TrackedAlert :=
  mkTracked "fp1" "HighCPU" (Some "node1:9100") (Some "critical") ex_labels []
    st 0 0 res [] 0%Z 0%Z 0%Z None None.

Definition ex_attempt (st : string) : RemediationAttempt :=
  mkAttempt "restart" "core.local" st 1 (Some 2) (Some "e1") None.

Definition ex_store (alerts : gmap string TrackedAlert) (locks : gmap string bool) : EngineSt :=
  mkEngineSt (mkMem alerts locks ∅) 10.

Definition ex_client : JobClient :=
  mkClient (fun _ => inr "exec1") (fun _ _ => inr ("succeeded", None)).

Definition ex_engine (handlers : dict Handler) : RemediationEngine :=
  mkEngine (mkRegistry handlers []) ex_client "instance-a".

(* ------------------------------------------------------------------ *)
(** ** Auxiliary definitions of the proofs *)

Definition other_status (a : RemediationAttempt) : bool :=
  negb (String.eqb (at_status a) "success") && negb (String.eqb (at_status a) "failed").




Definition ex_body {S} (acquired : bool) : SM S bool := mret acquired.

Definition ex_action_config (conds : option Conditions) : ActionConfig :=
  mkActionConfig (Some "restart") None (Some "core.local") None conds None None None.

Definition ex_warning_alert : Alert :=
  mkAlert FIRING [("alertname", "HighCPU"); ("severity", "warning")] [] 0 0 "" "fp2".

Definition ex_template_alert : Alert :=
  mkAlert FIRING [("alertname", "a{{severity}}"); ("severity", "critical")] [] 0 0 "" "fp3".

Definition ex_param_config : ActionConfig :=
  mkActionConfig (Some "restart") None (Some "core.local")
    (Some [("alert_name", PStr "configured")]) None None None None.

Definition ex_built_action : RemediationAction :=
  match build_action (ex_alert FIRING) ex_param_config with
  | inr x => x
  | inl _ => mkAction "" "" "" [] 0 0 0
  end.

(* ================================================================== *)
(** ** Auxiliary definitions of the further properties *)

Fixpoint sorted_desc (l : list TrackedAlert) : bool :=
  match l with
  | x :: ((y :: _) as l') => Nat.leb (received_at y) (received_at x) && sorted_desc l'
  | _ => true
  end.

Definition sum_values (d : dict Z) : Z := fold_right Z.add 0%Z (map snd d).

Definition status_index_keys : list string := map (fun st => index_key (status_value st)) all_statuses.

(** The configuration an alert name gets from the last of [files] whose
    "alerts" mapping has it. *)
Definition last_defined (files : list MappingFile) (k : string) (init : option YamlValue)
    : option YamlValue :=
  fold_left (fun acc f => match file_alert_items f with
                          | inr (Some items) => match dict_get items k with Some v => Some v | None => acc end
                          | _ => acc
                          end) files init.

(** Every dict of a value has distinct keys, as a Python dict does. *)
Fixpoint yaml_wf (v : YamlValue) : bool :=
  match v with
  | YList l | YTuple l | YSet l => forallb yaml_wf l
  | YDict d => bool_decide (NoDup (map fst d)) && forallb (fun kv => yaml_wf kv.2) d
  | _ => true
  end.

(** The attempt counters of a record agree with its attempt list, and every
    attempt in it ended in "success" or "failed". *)
Definition counters_ok (t : TrackedAlert) : Prop :=
  total_attempts t = Z.of_nat (length (remediation_attempts t)) /\
  successful_attempts t = Z.of_nat (count_status "success" (remediation_attempts t)) /\
  failed_attempts t = Z.of_nat (count_status "failed" (remediation_attempts t)) /\
  Forall (fun a => at_status a = "success" \/ at_status a = "failed") (remediation_attempts t).

(** No [asyncio.Lock] of the store is locked and no key is marked active. *)
Definition no_lock_held (ms : MemoryStateStore) : Prop :=
  (forall k, m_locks ms !! k <> Some true) /\ m_active_locks ms = ∅.

(** Every stored record satisfies [I], and the lock fields are [L] and [act]. *)
Definition store_ok (I : TrackedAlert -> Prop) (L : gmap string bool) (act : gset string)
    (ms : MemoryStateStore) : Prop :=
  map_Forall (fun _ t => I t) (m_alerts ms) /\ m_locks ms = L /\ m_active_locks ms = act.

(** [m] keeps [store_ok I L act], and a value it returns satisfies [Q]. *)
Definition htriple {A} (I : TrackedAlert -> Prop) (L : gmap string bool) (act : gset string)
    (m : SM EngineSt A) (Q : A -> Prop) : Prop :=
  forall s, store_ok I L act (es_store s) ->
    store_ok I L act (es_store (m s).1) /\ forall x, (m s).2 = inr x -> Q x.

(** [s] contains "{{" somewhere. *)
Fixpoint has_open_braces (s : string) : bool :=
  match s with
  | EmptyString => false
  | String _ rest => String.prefix "{{" s || has_open_braces rest
  end.

Definition ex_rdb : RedisDB := mkRedisDB true ∅ ∅ 24 0.

(** Two mapping files: one maps HighCPU and DiskSpace, the other maps
    HighCPU again. *)
Definition ex_mapping_files : list MappingFile :=
  [Loaded (YDict [("alerts", YDict [("HighCPU", YDict [("handler", YStr "yaml_config")]);
                                    ("DiskSpace", YDict [])])]);
   Loaded (YDict [("alerts", YDict [("HighCPU", YDict [("handler", YStr "high_cpu")])])])].

Definition ex_handler : Handler := mkHandler "h" (fun _ _ => true) (fun _ _ => inr [ex_built_action]).

(** * Properties *)

(* ------------------------------------------------------------------ *)
(** ** Attempt counters *)

Lemma count_status_cons s a l :
  count_status s (a :: l) = (if String.eqb (at_status a) s then 1 else 0) + count_status s l.
Proof. unfold count_status. simpl. destruct (String.eqb (at_status a) s); reflexivity. Qed.

Lemma length_split_status (l : list RemediationAttempt) :
  length l = count_status "success" l + count_status "failed" l + length (List.filter other_status l).
Proof.
  induction l as [|a l IH]; [reflexivity|].
  rewrite !count_status_cons. simpl List.filter. unfold other_status at 1.
  destruct (String.eqb_spec (at_status a) "success") as [Hs|Hs];
  destruct (String.eqb_spec (at_status a) "failed") as [Hf|Hf];
  try congruence; simpl; lia.
Qed.

Lemma add_attempts_counters (t : TrackedAlert) (l : list RemediationAttempt) :
  total_attempts (add_attempts t l) = (total_attempts t + Z.of_nat (length l))%Z /\
  remediation_attempts (add_attempts t l) = (remediation_attempts t ++ l)%list /\
  successful_attempts (add_attempts t l)
    = (successful_attempts t + Z.of_nat (count_status "success" l))%Z /\
  failed_attempts (add_attempts t l)
    = (failed_attempts t + Z.of_nat (count_status "failed" l))%Z.
Proof.
  revert t. induction l as [|a l IH]; intros t.
  - unfold count_status. simpl. rewrite app_nil_r. repeat split; lia.
  - unfold add_attempts in *. simpl fold_left.
    destruct (IH (add_remediation_attempt t a)) as (H1 & H2 & H3 & H4).
    rewrite H1, H2, H3, H4, !count_status_cons. simpl.
    rewrite <- app_assoc. simpl.
    destruct (String.eqb_spec (at_status a) "success") as [Hs|Hs];
    destruct (String.eqb_spec (at_status a) "failed") as [Hf|Hf];
    try congruence; simpl; repeat split; lia.
Qed.

Lemma filter_other_status_nil (l : list RemediationAttempt) :
  Forall (fun a => at_status a = "success" \/ at_status a = "failed") l ->
  List.filter other_status l = [].
Proof.
  induction 1 as [|a l Ha _ IH]; [reflexivity|].
  simpl. unfold other_status at 1.
  destruct Ha as [Ha|Ha]; rewrite Ha; simpl; exact IH.
Qed.

(** Claim C1, as stated: fails. A fresh TrackedAlert given one attempt whose
    status is "running" has total_attempts = 1 but successful_attempts +
    failed_attempts = 0. *)
Lemma C1_running_attempt_breaks_sum :
  let t := add_attempts (ex_tracked RECEIVED None) [ex_attempt "running"] in
  total_attempts t <> (successful_attempts t + failed_attempts t)%Z.
Proof. vm_compute. discriminate. Qed.

(** Claim C1 (amended): starting from a TrackedAlert whose counters agree with
    its attempt list, after any sequence of [add_remediation_attempt] calls
    total_attempts equals the length of remediation_attempts and equals
    successful_attempts + failed_attempts + the number of added attempts whose
    status is neither "success" nor "failed"; so total_attempts =
    successful_attempts + failed_attempts whenever every added attempt has
    status "success" or "failed". *)
Theorem C1_attempt_counters (t : TrackedAlert) (l : list RemediationAttempt) :
  Z.of_nat (length (remediation_attempts t)) = total_attempts t ->
  total_attempts t = (successful_attempts t + failed_attempts t)%Z ->
  let t' := add_attempts t l in
  Z.of_nat (length (remediation_attempts t')) = total_attempts t' /\
  total_attempts t'
    = (successful_attempts t' + failed_attempts t' + Z.of_nat (length (List.filter other_status l)))%Z /\
  (Forall (fun a => at_status a = "success" \/ at_status a = "failed") l ->
   total_attempts t' = (successful_attempts t' + failed_attempts t')%Z).
Proof.
  intros Hlen Hsum t'. subst t'.
  destruct (add_attempts_counters t l) as (H1 & H2 & H3 & H4).
  rewrite H1, H2, H3, H4, length_app.
  pose proof (length_split_status l) as Hl.
  split; [lia|]. split; [lia|].
  intros Hall.
  rewrite (filter_other_status_nil l Hall) in Hl. simpl in Hl. lia.
Qed.

Lemma C1_attempt_counters_witness :
  (Z.of_nat (length (remediation_attempts (ex_tracked RECEIVED None)))
     = total_attempts (ex_tracked RECEIVED None) /\
   total_attempts (ex_tracked RECEIVED None)
     = (successful_attempts (ex_tracked RECEIVED None)
        + failed_attempts (ex_tracked RECEIVED None))%Z) /\
  (let t' := add_attempts (ex_tracked RECEIVED None)
               [ex_attempt "success"; ex_attempt "failed"] in
   Z.of_nat (length (remediation_attempts t')) = total_attempts t' /\
   total_attempts t'
     = (successful_attempts t' + failed_attempts t'
        + Z.of_nat (length (List.filter other_status
                              [ex_attempt "success"; ex_attempt "failed"])))%Z /\
   (Forall (fun a => at_status a = "success" \/ at_status a = "failed")
      [ex_attempt "success"; ex_attempt "failed"] ->
    total_attempts t' = (successful_attempts t' + failed_attempts t')%Z)).
Proof.
  split; [split; reflexivity|].
  apply C1_attempt_counters; reflexivity.
Defined.

(* ------------------------------------------------------------------ *)
(** ** The in-memory lock scope *)

Lemma mem_lock_held {A} (key : string) (body : bool -> SM EngineSt A) (s : EngineSt) :
  mem_lock_locked (es_store s) key = true ->
  mem_lock key body s = body false s.
Proof.
  destruct s as [[al lk ac] c]. unfold mem_lock, mem_lock_locked. simpl.
  destruct (lk !! key) as [[|]|] eqn:E; try discriminate. intros _.
  rewrite E. simpl. unfold set_store. simpl. destruct (body false _); reflexivity.
Qed.

Lemma mem_lock_free {A} (key : string) (body : bool -> SM EngineSt A) (s : EngineSt) :
  mem_lock_locked (es_store s) key = false ->
  mem_lock key body s =
    let ms := es_store s in
    let s1 := set_store s (mkMem (m_alerts ms) (<[key := true]> (m_locks ms))
                                 ({[key]} ∪ m_active_locks ms)) in
    let '(s2, r) := body true s1 in
    let '(ms3, err) := mem_release key (es_store s2) in
    (set_store s2 ms3, match err with Some e => inl e | None => r end).
Proof.
  destruct s as [[al lk ac] c]. unfold mem_lock, mem_lock_locked. simpl.
  destruct (lk !! key) as [[|]|] eqn:E; intros H; try discriminate.
  - rewrite E. reflexivity.
  - rewrite lookup_insert_eq. simpl. rewrite insert_insert_eq. reflexivity.
Qed.

Lemma mem_release_locked (key : string) (ms : MemoryStateStore) :
  mem_lock_locked ms key = true ->
  mem_release key ms = (mkMem (m_alerts ms) (<[key := false]> (m_locks ms))
                              (m_active_locks ms ∖ {[key]}), None).
Proof. unfold mem_release. intros ->. reflexivity. Qed.

Lemma mem_lock_locked_insert_true (al : gmap string TrackedAlert) lk ac key :
  mem_lock_locked (mkMem al (<[key := true]> lk) ac) key = true.
Proof. unfold mem_lock_locked. simpl. rewrite lookup_insert_eq. reflexivity. Qed.

(* ------------------------------------------------------------------ *)
(** ** Processing a firing alert *)

(** Claim C2: for a firing alert whose lock "alert:<fingerprint>" is held,
    [process_alert] returns an empty result list (no exception) and leaves
    the state store exactly as it was; only the clock has been read. *)
Theorem C2_lock_not_acquired_skips (eng : RemediationEngine) (a : Alert) (s : EngineSt) :
  a_status a = FIRING ->
  mem_lock_locked (es_store s) ("alert:" ++ a_fingerprint a) = true ->
  process_alert eng a s = (mkEngineSt (es_store s) (S (es_clock s)), inr []).
Proof.
  intros Hf Hl. unfold process_alert, mbind, SM_bind, now_utc. simpl.
  rewrite Hf. rewrite mem_lock_held by exact Hl. reflexivity.
Qed.

Lemma C2_lock_not_acquired_skips_witness :
  (a_status (ex_alert FIRING) = FIRING /\
   mem_lock_locked (es_store (ex_store ∅ {["alert:fp1" := true]})) "alert:fp1" = true) /\
  process_alert (ex_engine [("yaml_config", YAMLConfigHandler)]) (ex_alert FIRING)
    (ex_store ∅ {["alert:fp1" := true]})
  = (mkEngineSt (es_store (ex_store ∅ {["alert:fp1" := true]})) 11, inr []).
Proof.
  split; [split; reflexivity|].
  apply (C2_lock_not_acquired_skips _ (ex_alert FIRING) (ex_store ∅ {["alert:fp1" := true]}));
    reflexivity.
Defined.

Lemma process_alert_firing (eng : RemediationEngine) (a : Alert) (s : EngineSt) :
  a_status a = FIRING ->
  process_alert eng a s =
    mem_lock ("alert:" ++ a_fingerprint a) (process_locked eng a (es_clock s))
      (mkEngineSt (es_store s) (S (es_clock s))).
Proof. intros Hf. unfold process_alert, mbind, SM_bind, now_utc. simpl. rewrite Hf. reflexivity. Qed.

Lemma process_alert_resolved (eng : RemediationEngine) (a : Alert) (s : EngineSt) :
  a_status a = RESOLVED_ ->
  process_alert eng a s = handle_resolved_alert a (mkEngineSt (es_store s) (S (es_clock s))).
Proof. intros Hr. unfold process_alert, mbind, SM_bind, now_utc. simpl. rewrite Hr. reflexivity. Qed.

(** [process_locked] once the lock is held and the record looked up. *)
Lemma process_locked_found (eng : RemediationEngine) (a : Alert) (now : nat) (s : EngineSt)
    (t : TrackedAlert) :
  m_alerts (es_store s) !! a_fingerprint a = Some t ->
  process_locked eng a now true s =
    (if status_eqb (status t) RESOLVED then mret [] else
     match get_actions_for_alert (eng_registry eng) a with
     | inl e => raise e
     | inr [] => save_alert (update_status t REMEDIATED now);; mret []
     | inr actions =>
         let t1 := set_processed_by (update_status t REMEDIATING now)
                     (Some (eng_instance_id eng)) in
         save_alert t1;;
         '(results, t') ← execute_all eng a actions t1;
         ts ← now_utc;
         save_alert (update_status t' REMEDIATED ts);;
         mret results
     end) s.
Proof.
  intros Hget. unfold process_locked, mbind, SM_bind, get_alert. simpl.
  rewrite Hget. reflexivity.
Qed.

Lemma process_locked_new (eng : RemediationEngine) (a : Alert) (now : nat) (s : EngineSt) :
  m_alerts (es_store s) !! a_fingerprint a = None ->
  process_locked eng a now true s =
    (let t := new_tracked eng a now in
     save_alert t;;
     match get_actions_for_alert (eng_registry eng) a with
     | inl e => raise e
     | inr [] => save_alert (update_status t REMEDIATED now);; mret []
     | inr actions =>
         let t1 := set_processed_by (update_status t REMEDIATING now)
                     (Some (eng_instance_id eng)) in
         save_alert t1;;
         '(results, t') ← execute_all eng a actions t1;
         ts ← now_utc;
         save_alert (update_status t' REMEDIATED ts);;
         mret results
     end) s.
Proof.
  intros Hget. unfold process_locked, mbind, SM_bind, get_alert. simpl.
  rewrite Hget. reflexivity.
Qed.

(** Claim C3: a firing alert whose TrackedAlert is RESOLVED yields an empty
    result list and leaves every stored record unchanged (whether or not the
    lock is acquired): RESOLVED is terminal under firing events. *)
Theorem C3_resolved_is_terminal (eng : RemediationEngine) (a : Alert) (s : EngineSt)
    (t : TrackedAlert) :
  a_status a = FIRING ->
  m_alerts (es_store s) !! a_fingerprint a = Some t ->
  status t = RESOLVED ->
  let '(s', r) := process_alert eng a s in
  r = inr [] /\ m_alerts (es_store s') = m_alerts (es_store s) /\
  option_map status (m_alerts (es_store s') !! a_fingerprint a) = Some RESOLVED.
Proof.
  intros Hf Hget Hst. rewrite process_alert_firing by exact Hf.
  destruct s as [[al lk ac] c]. simpl in *.
  destruct (mem_lock_locked (mkMem al lk ac) ("alert:" ++ a_fingerprint a)) eqn:Hl.
  - rewrite mem_lock_held by exact Hl. unfold process_locked. simpl.
    rewrite Hget. simpl. rewrite Hst. auto.
  - rewrite mem_lock_free by exact Hl. simpl.
    rewrite (process_locked_found _ _ _ _ t) by exact Hget. rewrite Hst. simpl.
    unfold mem_release. rewrite mem_lock_locked_insert_true. simpl.
    rewrite Hget. simpl. rewrite Hst. auto.
Qed.

Lemma C3_resolved_is_terminal_witness :
  (a_status (ex_alert FIRING) = FIRING /\
   m_alerts (es_store (ex_store {["fp1" := ex_tracked RESOLVED (Some 5)]} ∅)) !! "fp1"
     = Some (ex_tracked RESOLVED (Some 5)) /\
   status (ex_tracked RESOLVED (Some 5)) = RESOLVED) /\
  (let '(s', r) := process_alert (ex_engine [("yaml_config", YAMLConfigHandler)]) (ex_alert FIRING)
                     (ex_store {["fp1" := ex_tracked RESOLVED (Some 5)]} ∅) in
   r = inr [] /\
   m_alerts (es_store s')
     = m_alerts (es_store (ex_store {["fp1" := ex_tracked RESOLVED (Some 5)]} ∅)) /\
   option_map status (m_alerts (es_store s') !! a_fingerprint (ex_alert FIRING)) = Some RESOLVED).
Proof.
  split; [split; [reflexivity|split; reflexivity]|].
  apply (C3_resolved_is_terminal _ (ex_alert FIRING)
           (ex_store {["fp1" := ex_tracked RESOLVED (Some 5)]} ∅) (ex_tracked RESOLVED (Some 5)));
    reflexivity.
Defined.

(* ------------------------------------------------------------------ *)
(** ** Processing a resolved alert *)

Lemma handle_resolved_alert_eq (a : Alert) (s : EngineSt) :
  handle_resolved_alert a s =
    match m_alerts (es_store s) !! a_fingerprint a with
    | None => (s, inr [])
    | Some t =>
        if status_eqb (status t) RESOLVED then (s, inr [])
        else (mkEngineSt (mkMem (<[fingerprint t := update_status t RESOLVED (es_clock s)]>
                                   (m_alerts (es_store s)))
                                (m_locks (es_store s)) (m_active_locks (es_store s)))
                         (S (es_clock s)), inr [])
    end.
Proof.
  destruct s as [[al lk ac] c].
  unfold handle_resolved_alert, mbind, SM_bind, get_alert. simpl.
  destruct (al !! a_fingerprint a) as [t|]; [|reflexivity].
  destruct (status_eqb (status t) RESOLVED); reflexivity.
Qed.

(** Claim C4: processing a resolved event twice is idempotent. Both calls
    return an empty result list and the second leaves the store as the first
    left it. With no TrackedAlert for the fingerprint, the first call writes
    nothing either. With one (stored, as [save_alert] stores every record,
    under its own fingerprint), it is RESOLVED afterwards and its resolved_at
    is the time stamped by the first call (the clock reading
    [S (es_clock s)]), or the one it already had if it was RESOLVED before. *)
Theorem C4_resolve_idempotent (eng : RemediationEngine) (a : Alert) (s : EngineSt) :
  a_status a = RESOLVED_ ->
  (forall t, m_alerts (es_store s) !! a_fingerprint a = Some t ->
             fingerprint t = a_fingerprint a) ->
  let '(s1, r1) := process_alert eng a s in
  let '(s2, r2) := process_alert eng a s1 in
  r1 = inr [] /\ r2 = inr [] /\ m_alerts (es_store s2) = m_alerts (es_store s1) /\
  match m_alerts (es_store s) !! a_fingerprint a with
  | None => m_alerts (es_store s1) = m_alerts (es_store s)
  | Some t =>
      exists t', m_alerts (es_store s2) !! a_fingerprint a = Some t' /\
                 status t' = RESOLVED /\
                 resolved_at t' = (if status_eqb (status t) RESOLVED
                                   then resolved_at t else Some (S (es_clock s)))
  end.
Proof.
  intros Hr Hkey. rewrite process_alert_resolved by exact Hr.
  rewrite handle_resolved_alert_eq. simpl.
  destruct s as [[al lk ac] c]. simpl in *.
  destruct (al !! a_fingerprint a) as [t|] eqn:Hget.
  - specialize (Hkey t eq_refl) as Hfp.
    destruct (status_eqb (status t) RESOLVED) eqn:Hst.
    + rewrite process_alert_resolved by exact Hr.
      rewrite handle_resolved_alert_eq. simpl. rewrite Hget, Hst.
      repeat split; [].
      exists t. split; [exact Hget|]. split; [|reflexivity].
      destruct (status t); try discriminate; reflexivity.
    + rewrite process_alert_resolved by exact Hr.
      rewrite handle_resolved_alert_eq. simpl.
      rewrite Hfp, lookup_insert_eq. simpl.
      repeat split; [].
      exists (update_status t RESOLVED (S c)).
      rewrite lookup_insert_eq. auto.
  - rewrite process_alert_resolved by exact Hr.
    rewrite handle_resolved_alert_eq. simpl. rewrite Hget. auto.
Qed.

Lemma C4_resolve_idempotent_witness :
  (a_status (ex_alert RESOLVED_) = RESOLVED_ /\
   (forall t, m_alerts (es_store (ex_store {["fp1" := ex_tracked REMEDIATED None]} ∅))
                !! a_fingerprint (ex_alert RESOLVED_) = Some t ->
              fingerprint t = a_fingerprint (ex_alert RESOLVED_))) /\
  (let '(s1, r1) := process_alert (ex_engine []) (ex_alert RESOLVED_)
                      (ex_store {["fp1" := ex_tracked REMEDIATED None]} ∅) in
   let '(s2, r2) := process_alert (ex_engine []) (ex_alert RESOLVED_) s1 in
   r1 = inr [] /\ r2 = inr [] /\ m_alerts (es_store s2) = m_alerts (es_store s1) /\
   match m_alerts (es_store (ex_store {["fp1" := ex_tracked REMEDIATED None]} ∅))
           !! a_fingerprint (ex_alert RESOLVED_) with
   | None => m_alerts (es_store s1)
             = m_alerts (es_store (ex_store {["fp1" := ex_tracked REMEDIATED None]} ∅))
   | Some t =>
       exists t', m_alerts (es_store s2) !! a_fingerprint (ex_alert RESOLVED_) = Some t' /\
                  status t' = RESOLVED /\
                  resolved_at t' = (if status_eqb (status t) RESOLVED
                                    then resolved_at t
                                    else Some (S (es_clock (ex_store {["fp1" := ex_tracked REMEDIATED None]} ∅))))
   end).
Proof.
  split.
  - split; [reflexivity|]. intros t Ht. vm_compute in Ht. injection Ht as <-. reflexivity.
  - apply C4_resolve_idempotent; [reflexivity|].
    intros t Ht. vm_compute in Ht. injection Ht as <-. reflexivity.
Defined.

(* ------------------------------------------------------------------ *)
(** ** The no-action path *)

(** Claim C8, as stated: fails. With the alert's lock held by another
    instance, a firing alert for which the registry resolves no actions
    leaves its TrackedAlert RECEIVED, not REMEDIATED. *)
Lemma C8_lock_held_no_transition :
  get_actions_for_alert (eng_registry (ex_engine [])) (ex_alert FIRING) = inr [] /\
  let '(s', r) := process_alert (ex_engine []) (ex_alert FIRING)
                    (ex_store {["fp1" := ex_tracked RECEIVED None]} {["alert:fp1" := true]}) in
  r = inr [] /\ option_map status (m_alerts (es_store s') !! "fp1") = Some RECEIVED.
Proof. vm_compute. auto. Qed.

(** Claim C8 (amended): for a firing alert for which the registry resolves
    no actions, [process_alert] returns an empty result list. When the
    alert's lock is held elsewhere, nothing is written (the store is as it
    was); when the lock is acquired and the TrackedAlert is RESOLVED, no
    record changes; when the lock is acquired and the TrackedAlert is
    absent or not RESOLVED, [process_alert] stores it with status
    REMEDIATED and adds no remediation attempt (the attempt list and
    counters are those it had, none for a new record). *)
Theorem C8_no_actions_remediated (eng : RemediationEngine) (a : Alert) (s : EngineSt) :
  a_status a = FIRING ->
  get_actions_for_alert (eng_registry eng) a = inr [] ->
  (forall t, m_alerts (es_store s) !! a_fingerprint a = Some t -> fingerprint t = a_fingerprint a) ->
  let '(s', r) := process_alert eng a s in
  r = inr [] /\
  if mem_lock_locked (es_store s) ("alert:" ++ a_fingerprint a) then es_store s' = es_store s
  else
    match m_alerts (es_store s) !! a_fingerprint a with
    | Some t =>
        if status_eqb (status t) RESOLVED then m_alerts (es_store s') = m_alerts (es_store s)
        else exists t', m_alerts (es_store s') !! a_fingerprint a = Some t' /\
               status t' = REMEDIATED /\
               remediation_attempts t' = remediation_attempts t /\
               total_attempts t' = total_attempts t /\
               successful_attempts t' = successful_attempts t /\
               failed_attempts t' = failed_attempts t
    | None =>
        exists t', m_alerts (es_store s') !! a_fingerprint a = Some t' /\
          status t' = REMEDIATED /\
          remediation_attempts t' = [] /\ total_attempts t' = 0%Z /\
          successful_attempts t' = 0%Z /\ failed_attempts t' = 0%Z
    end.
Proof.
  intros Hf Hacts Hfp. rewrite process_alert_firing by exact Hf.
  destruct s as [[al lk ac] c]. simpl in *.
  destruct (mem_lock_locked (mkMem al lk ac) ("alert:" ++ a_fingerprint a)) eqn:Hl.
  - rewrite mem_lock_held by exact Hl. unfold process_locked. simpl. auto.
  - rewrite mem_lock_free by exact Hl. simpl.
    destruct (al !! a_fingerprint a) as [t|] eqn:Hget.
    + specialize (Hfp t eq_refl).
      rewrite (process_locked_found _ _ _ _ t) by exact Hget.
      destruct (status_eqb (status t) RESOLVED) eqn:Hb.
      * simpl. unfold mem_release. rewrite mem_lock_locked_insert_true. simpl. auto.
      * rewrite Hacts. unfold save_alert, mbind, SM_bind, mret, SM_ret. simpl.
        unfold mem_release. rewrite mem_lock_locked_insert_true. simpl.
        split; [reflexivity|].
        exists (update_status t REMEDIATED c). rewrite Hfp, lookup_insert_eq. repeat split.
    + rewrite process_locked_new by exact Hget.
      rewrite Hacts. unfold save_alert, mbind, SM_bind, mret, SM_ret. simpl.
      unfold mem_release. rewrite mem_lock_locked_insert_true. simpl.
      split; [reflexivity|].
      eexists. rewrite insert_insert_eq, lookup_insert_eq. repeat split.
Qed.

Lemma C8_no_actions_remediated_witness :
  (a_status (ex_alert FIRING) = FIRING /\
   get_actions_for_alert (eng_registry (ex_engine [])) (ex_alert FIRING) = inr [] /\
   (forall t, m_alerts (es_store (ex_store ∅ ∅)) !! a_fingerprint (ex_alert FIRING) = Some t ->
      fingerprint t = a_fingerprint (ex_alert FIRING))) /\
  (let '(s', r) := process_alert (ex_engine []) (ex_alert FIRING) (ex_store ∅ ∅) in
   r = inr [] /\
   if mem_lock_locked (es_store (ex_store ∅ ∅)) ("alert:" ++ a_fingerprint (ex_alert FIRING))
   then es_store s' = es_store (ex_store ∅ ∅)
   else
     match m_alerts (es_store (ex_store ∅ ∅)) !! a_fingerprint (ex_alert FIRING) with
     | Some t =>
         if status_eqb (status t) RESOLVED
         then m_alerts (es_store s') = m_alerts (es_store (ex_store ∅ ∅))
         else exists t', m_alerts (es_store s') !! a_fingerprint (ex_alert FIRING) = Some t' /\
                status t' = REMEDIATED /\
                remediation_attempts t' = remediation_attempts t /\
                total_attempts t' = total_attempts t /\
                successful_attempts t' = successful_attempts t /\
                failed_attempts t' = failed_attempts t
     | None =>
         exists t', m_alerts (es_store s') !! a_fingerprint (ex_alert FIRING) = Some t' /\
           status t' = REMEDIATED /\
           remediation_attempts t' = [] /\ total_attempts t' = 0%Z /\
           successful_attempts t' = 0%Z /\ failed_attempts t' = 0%Z
     end).
Proof.
  assert (H3 : forall t, m_alerts (es_store (ex_store ∅ ∅)) !! a_fingerprint (ex_alert FIRING) = Some t ->
                 fingerprint t = a_fingerprint (ex_alert FIRING))
    by (intros t Ht; vm_compute in Ht; discriminate).
  split; [split; [reflexivity|split; [reflexivity|exact H3]]|].
  exact (C8_no_actions_remediated (ex_engine []) (ex_alert FIRING) (ex_store ∅ ∅) eq_refl eq_refl H3).
Defined.

(* ------------------------------------------------------------------ *)
(** ** resolved_at and RESOLVED *)





















(* ------------------------------------------------------------------ *)
(** ** Registry resolution *)

Lemma collect_actions_concat (a : Alert) (hs : list (Handler * Mapping)) :
  collect_actions a hs = concat_results (map (fun hc => h_get_actions hc.1 a hc.2) hs).
Proof.
  induction hs as [|[h c] hs IH]; simpl; [reflexivity|].
  rewrite IH. destruct (h_get_actions h a c); reflexivity.
Qed.

Lemma probe_part_map (a : Alert) (hs : dict Handler) :
  map (fun hc => h_get_actions hc.1 a hc.2)
    (flat_map (fun nh =>
       let h := nh.2 in
       if String.eqb (h_name h) "yaml_config" then []
       else if h_can_handle h a empty_mapping then [(h, empty_mapping)] else []) hs)
  = map (fun h => h_get_actions h a empty_mapping)
      (List.filter (fun h => negb (String.eqb (h_name h) "yaml_config")
                             && h_can_handle h a empty_mapping) (map snd hs)).
Proof.
  induction hs as [|[n h] hs IH]; simpl; [reflexivity|].
  destruct (String.eqb (h_name h) "yaml_config"); simpl; [exact IH|].
  destruct (h_can_handle h a empty_mapping); simpl; [f_equal|]; exact IH.
Qed.

Lemma probe_part_no_yaml (a : Alert) (hs : dict Handler) :
  List.filter (fun hm => String.eqb (h_name hm.1) "yaml_config")
    (flat_map (fun nh =>
       let h := nh.2 in
       if String.eqb (h_name h) "yaml_config" then []
       else if h_can_handle h a empty_mapping then [(h, empty_mapping)] else []) hs) = [].
Proof.
  induction hs as [|[n h] hs IH]; simpl; [reflexivity|].
  destruct (String.eqb (h_name h) "yaml_config") eqn:E; simpl; [exact IH|].
  destruct (h_can_handle h a empty_mapping); simpl; [rewrite E|]; exact IH.
Qed.

(** Claim C5: the registry's action list is the mapped handler's actions
    (only when a static mapping exists for the alert name and its handler
    reports [can_handle]) followed, in registration order, by the actions of
    every registered handler other than "yaml_config" that reports
    [can_handle], concatenated without deduplication; the "yaml_config"
    handler is invoked at most once. *)
Theorem C5_registry_resolution (r : HandlerRegistry) (a : Alert) :
  get_actions_for_alert r a = spec_actions_for_alert r a /\
  length (List.filter (fun hm => String.eqb (h_name hm.1) "yaml_config") (find_handlers r a)) <= 1.
Proof.
  unfold get_actions_for_alert, spec_actions_for_alert, find_handlers, spec_probed_handlers.
  split.
  - rewrite collect_actions_concat, map_app, probe_part_map.
    unfold spec_mapped_actions.
    destruct (dict_get (reg_mappings r) (alertname a)) as [m|];
      [destruct (mapping_truthy m);
       [destruct (dict_get (reg_handlers r) (default "yaml_config" (mp_handler m))) as [h|];
        [destruct (h_can_handle h a m)|]|]|];
      simpl; try reflexivity; destruct (concat_results _); reflexivity.
  - rewrite List.filter_app, probe_part_no_yaml, app_nil_r.
    destruct (dict_get (reg_mappings r) (alertname a)) as [m|];
      [destruct (mapping_truthy m);
       [destruct (dict_get (reg_handlers r) (default "yaml_config" (mp_handler m))) as [h|];
        [destruct (h_can_handle h a m); simpl; [destruct (String.eqb (h_name h) "yaml_config")|]|]|]|];
      simpl; lia.
Qed.

(* ------------------------------------------------------------------ *)
(** ** The lock scopes of the two stores *)

(** Claim C6, as stated: fails for a Redis store that is not connected:
    entering the scope raises "Redis client not connected" instead of
    yielding a holder flag, and the block never runs. *)
Lemma C6_disconnected_redis_raises :
  redis_lock "alert:fp1" None (fun acquired => mret acquired) (mkRedis false ∅ 0 300)
  = (mkRedis false ∅ 0 300, inl "Redis client not connected").
Proof. reflexivity. Qed.

(** Claim C6 (amended): for the in-memory store, and for the Redis store
    while its client is connected and Redis accepts the lock's expiry, the
    scope runs the block with the flag "the key was free"; on scope exit a
    caller that acquired the lock has released it, whatever the block
    returned or raised (for Redis, unless the block disconnected the
    client, in which case the exit raises and the key is left to its
    expiry); a caller that did not acquire runs the block on the state as
    it was and releases nothing. A Redis store that is not connected raises
    RuntimeError on entry, and one whose lock expiry Redis rejects (a
    [LOCK_TIMEOUT_SECONDS] of 0 or less, say) raises ResponseError on
    entry; in both cases the block never runs. *)
Theorem C6_lock_scope_release :
  (forall A (key : string) (body : bool -> SM EngineSt A) (s : EngineSt),
     mem_lock key body s
     = mem_lock key (fun _ => body (negb (mem_lock_locked (es_store s) key))) s) /\
  (forall A (key : string) (body : bool -> SM EngineSt A) (s : EngineSt),
     mem_lock_locked (es_store s) key = false ->
     mem_lock_locked (es_store (mem_lock key body s).1) key = false /\
     key ∉ m_active_locks (es_store (mem_lock key body s).1)) /\
  (forall A (key : string) (body : bool -> SM EngineSt A) (s : EngineSt),
     mem_lock_locked (es_store s) key = true ->
     mem_lock key body s = body false s) /\
  (forall A (key : string) (timeout : option Z) (body : bool -> SM RedisStore A) (rs : RedisStore),
     r_connected rs = true ->
     redis_lock key timeout body rs
     = redis_lock key timeout (fun _ => body (negb (redis_held rs key))) rs) /\
  (forall A (key : string) (timeout : option Z) (body : bool -> SM RedisStore A) (rs : RedisStore),
     r_connected rs = true -> redis_held rs key = false ->
     redis_lock_expiry_ok timeout rs = true ->
     let '(rs', r) := redis_lock key timeout body rs in
     (exists rs1, redis_held rs1 key = true /\
        let '(rs2, r2) := body true rs1 in
        (r_connected rs2 = true -> rs' = mkRedis true (delete (lock_key key) (r_server rs2))
                                                (r_clock rs2) (r_lock_timeout rs2) /\ r = r2) /\
        (r_connected rs2 = false -> rs' = rs2)) /\
     (r_connected rs' = true -> redis_held rs' key = false) /\
     (r_connected rs' = false -> exists e, r = inl e)) /\
  (forall A (key : string) (timeout : option Z) (body : bool -> SM RedisStore A) (rs : RedisStore),
     r_connected rs = true -> redis_held rs key = true ->
     redis_lock_expiry_ok timeout rs = true ->
     redis_lock key timeout body rs = body false rs) /\
  (forall A (key : string) (timeout : option Z) (body : bool -> SM RedisStore A) (rs : RedisStore),
     r_connected rs = false ->
     redis_lock key timeout body rs = (rs, inl "Redis client not connected")) /\
  (forall A (key : string) (timeout : option Z) (body : bool -> SM RedisStore A) (rs : RedisStore),
     r_connected rs = true -> redis_lock_expiry_ok timeout rs = false ->
     exists e, redis_lock key timeout body rs = (rs, inl e) /\
       (LLONG_MIN <= redis_lock_timeout timeout rs <= 0 ->
        e = "ResponseError: invalid expire time in 'set' command")%Z).
Proof.
  split; [|split; [|split; [|split; [|split; [|split; [|split]]]]]].
  - intros A key body [[al lk ac] c]. unfold mem_lock, mem_lock_locked. simpl.
    destruct (lk !! key) as [[|]|] eqn:E; simpl; rewrite ?E, ?lookup_insert_eq; reflexivity.
  - intros A key body s Hl. rewrite mem_lock_free by exact Hl. simpl.
    destruct (body true _) as [s2 r]. unfold mem_release.
    destruct (mem_lock_locked (es_store s2) key) eqn:E; simpl.
    + unfold mem_lock_locked. simpl. rewrite lookup_insert_eq. split; [reflexivity|set_solver].
    + split; [exact E|set_solver].
  - intros A key body s Hl. apply mem_lock_held. exact Hl.
  - intros A key timeout body rs Hc. unfold redis_lock. rewrite Hc. simpl.
    destruct (redis_check_expire _ _ _); reflexivity.
  - intros A key timeout body rs Hc Hh Hok. unfold redis_lock_expiry_ok in Hok.
    unfold redis_lock. rewrite Hc. simpl.
    destruct (redis_check_expire _ _ _); [discriminate|]. rewrite Hh. simpl.
    set (rs1 := mkRedis true (<[lock_key key := r_clock rs]> (r_server rs)) (r_clock rs)
                        (r_lock_timeout rs)).
    assert (H1 : redis_held rs1 key = true)
      by (unfold redis_held; simpl; rewrite lookup_insert_eq; reflexivity).
    destruct (body true rs1) as [rs2 r] eqn:Eb.
    destruct (r_connected rs2) eqn:E; simpl.
    + split; [|split; [|congruence]].
      * exists rs1. split; [exact H1|]. rewrite Eb. split; [|congruence].
        intros _. split; [reflexivity|reflexivity].
      * intros _. unfold redis_held. simpl. rewrite lookup_delete_eq. reflexivity.
    + split; [|split; [congruence|eauto]].
      exists rs1. split; [exact H1|]. rewrite Eb. split; [congruence|]. intros _. reflexivity.
  - intros A key timeout body rs Hc Hh Hok. unfold redis_lock_expiry_ok in Hok.
    unfold redis_lock. rewrite Hc. simpl.
    destruct (redis_check_expire _ _ _); [discriminate|]. rewrite Hh. simpl.
    destruct (body false rs); reflexivity.
  - intros A key timeout body rs Hc. unfold redis_lock. rewrite Hc. reflexivity.
  - intros A key timeout body rs Hc Hok. unfold redis_lock_expiry_ok in Hok.
    unfold redis_lock. rewrite Hc. simpl.
    destruct (redis_check_expire "set" _ _) as [e|] eqn:E; [|discriminate].
    exists e. split; [reflexivity|]. intros Hle.
    unfold redis_check_expire in E.
    destruct ((redis_lock_timeout timeout rs <? LLONG_MIN) || (LLONG_MAX <? redis_lock_timeout timeout rs))%Z
      eqn:Er.
    + exfalso. apply orb_true_iff in Er.
      destruct Er as [Er|Er]; apply Z.ltb_lt in Er; unfold LLONG_MIN, LLONG_MAX in *; lia.
    + assert (Hle' : (redis_lock_timeout timeout rs <=? 0)%Z = true) by (apply Z.leb_le; lia).
      rewrite Hle' in E. simpl in E. injection E as <-. reflexivity.
Qed.

Lemma C6_lock_scope_release_witness :
  (mem_lock_locked (es_store (ex_store ∅ ∅)) "k" = false /\
   mem_lock_locked (es_store (mem_lock "k" ex_body (ex_store ∅ ∅)).1) "k" = false /\
   "k" ∉ m_active_locks (es_store (mem_lock "k" ex_body (ex_store ∅ ∅)).1)) /\
  (mem_lock_locked (es_store (ex_store ∅ {["k" := true]})) "k" = true /\
   mem_lock "k" ex_body (ex_store ∅ {["k" := true]}) = ex_body false (ex_store ∅ {["k" := true]})) /\
  (r_connected (mkRedis true ∅ 0 300) = true /\ redis_held (mkRedis true ∅ 0 300) "k" = false /\
   redis_lock_expiry_ok None (mkRedis true ∅ 0 300) = true /\
   let '(rs', r) := redis_lock "k" None ex_body (mkRedis true ∅ 0 300) in
   (exists rs1, redis_held rs1 "k" = true /\
      let '(rs2, r2) := ex_body true rs1 in
      (r_connected rs2 = true -> rs' = mkRedis true (delete (lock_key "k") (r_server rs2))
                                              (r_clock rs2) (r_lock_timeout rs2) /\ r = r2) /\
      (r_connected rs2 = false -> rs' = rs2)) /\
   (r_connected rs' = true -> redis_held rs' "k" = false) /\
   (r_connected rs' = false -> exists e, r = inl e)) /\
  (r_connected (mkRedis true {[lock_key "k" := 0]} 0 300) = true /\
   redis_held (mkRedis true {[lock_key "k" := 0]} 0 300) "k" = true /\
   redis_lock_expiry_ok None (mkRedis true {[lock_key "k" := 0]} 0 300) = true /\
   redis_lock "k" None ex_body (mkRedis true {[lock_key "k" := 0]} 0 300)
   = ex_body false (mkRedis true {[lock_key "k" := 0]} 0 300)) /\
  (r_connected (mkRedis false ∅ 0 300) = false /\
   redis_lock "k" None (@ex_body RedisStore) (mkRedis false ∅ 0 300)
   = (mkRedis false ∅ 0 300, inl "Redis client not connected")) /\
  (r_connected (mkRedis true ∅ 0 0) = true /\ redis_lock_expiry_ok None (mkRedis true ∅ 0 0) = false /\
   exists e, redis_lock "k" None (@ex_body RedisStore) (mkRedis true ∅ 0 0) = (mkRedis true ∅ 0 0, inl e) /\
     (LLONG_MIN <= redis_lock_timeout None (mkRedis true ∅ 0 0) <= 0 ->
      e = "ResponseError: invalid expire time in 'set' command")%Z).
Proof.
  destruct C6_lock_scope_release as (_ & H2 & H3 & _ & H5 & H6 & H7 & H8).
  split; [|split; [|split; [|split; [|split]]]].
  - split; [reflexivity|]. apply H2. reflexivity.
  - split; [reflexivity|]. apply H3. reflexivity.
  - split; [reflexivity|]. split; [reflexivity|]. split; [vm_compute; reflexivity|].
    apply H5; [reflexivity|reflexivity|vm_compute; reflexivity].
  - split; [reflexivity|]. split; [reflexivity|]. split; [vm_compute; reflexivity|].
    apply H6; [reflexivity|reflexivity|vm_compute; reflexivity].
  - split; [reflexivity|]. apply H7. reflexivity.
  - split; [reflexivity|]. split; [vm_compute; reflexivity|].
    apply H8; [reflexivity|vm_compute; reflexivity].
Defined.

(* ------------------------------------------------------------------ *)
(** ** YAMLConfigHandler: conditions *)

Lemma yaml_loop_skip (a : Alert) (acs1 : list ActionConfig) (ac : ActionConfig)
    (acs2 : list ActionConfig) :
  check_conditions a ac = false ->
  yaml_actions_loop a (acs1 ++ ac :: acs2) = yaml_actions_loop a (acs1 ++ acs2).
Proof.
  intros Hc. induction acs1 as [|ac1 acs1 IH]; simpl.
  - rewrite Hc. reflexivity.
  - rewrite IH. reflexivity.
Qed.

Lemma yaml_loop_keep (a : Alert) (ac : ActionConfig) (rest : list ActionConfig)
    (act : RemediationAction) :
  check_conditions a ac = true -> build_action a ac = inr act ->
  yaml_actions_loop a (ac :: rest)
  = match yaml_actions_loop a rest with inl e => inl e | inr acts => inr (act :: acts) end.
Proof. intros Hc Hb. simpl. rewrite Hc, Hb. reflexivity. Qed.

(** Claim C7, as stated: fails. An action with conditions.severity =
    "critical" that also requires the label team=db is excluded for a
    critical alert that has no team label. *)
Lemma C7_critical_action_excluded_by_label_condition :
  severity (ex_alert FIRING) = "critical" /\
  yaml_get_actions (ex_alert FIRING)
    (mkMapping None (Some [ex_action_config
        (Some (mkConditions (Some (SevStr "critical")) (Some [("team", "db")]) None))]) [])
  = inr [].
Proof. vm_compute. auto. Qed.

(** Claim C7 (amended): for an action whose conditions.severity is
    "critical", [_check_conditions] rejects it when the alert's severity
    label is "warning", and when the label is "critical" accepts it exactly
    when its other conditions (labels, has_labels) hold. A rejected action is
    skipped without error: the handler's result is that of the list without
    it. An accepted action is produced in its place. *)
Theorem C7_severity_condition (a : Alert) (ac : ActionConfig) (conds : Conditions) :
  ac_conditions ac = Some conds ->
  c_severity conds = Some (SevStr "critical") ->
  (severity a = "warning" -> check_conditions a ac = false) /\
  (severity a = "critical" ->
   check_conditions a ac = labels_ok a conds && has_labels_ok a conds) /\
  (check_conditions a ac = false ->
   forall acs1 acs2, yaml_actions_loop a (acs1 ++ ac :: acs2) = yaml_actions_loop a (acs1 ++ acs2)) /\
  (check_conditions a ac = true ->
   forall act rest, build_action a ac = inr act ->
   yaml_actions_loop a (ac :: rest)
   = match yaml_actions_loop a rest with inl e => inl e | inr acts => inr (act :: acts) end).
Proof.
  intros Hac Hsev.
  assert (Hcc : check_conditions a ac
                = existsb (String.eqb (severity a)) ["critical"]
                  && labels_ok a conds && has_labels_ok a conds).
  { unfold check_conditions. rewrite Hac.
    unfold conditions_empty. rewrite Hsev.
    unfold severity_ok. rewrite Hsev. reflexivity. }
  split; [|split; [|split]].
  - intros Hw. rewrite Hcc, Hw. reflexivity.
  - intros Hc. rewrite Hcc, Hc. reflexivity.
  - intros Hf acs1 acs2. apply yaml_loop_skip. exact Hf.
  - intros Ht act rest Hb. apply yaml_loop_keep; assumption.
Qed.

Lemma C7_severity_condition_witness :
  (ac_conditions (ex_action_config (Some (mkConditions (Some (SevStr "critical")) None None)))
     = Some (mkConditions (Some (SevStr "critical")) None None) /\
   c_severity (mkConditions (Some (SevStr "critical")) None None) = Some (SevStr "critical") /\
   severity ex_warning_alert = "warning") /\
  check_conditions ex_warning_alert
    (ex_action_config (Some (mkConditions (Some (SevStr "critical")) None None))) = false.
Proof.
  split; [split; [reflexivity|split; reflexivity]|].
  apply (C7_severity_condition ex_warning_alert _ (mkConditions (Some (SevStr "critical")) None None));
    reflexivity.
Defined.

(* ------------------------------------------------------------------ *)
(** ** YAMLConfigHandler: parameters *)

Lemma dict_get_set {V} (d : dict V) (k : string) (v : V) (k' : string) :
  dict_get (dict_set d k v) k' = if String.eqb k' k then Some v else dict_get d k'.
Proof.
  induction d as [|[k1 v1] d IH]; simpl; [destruct (String.eqb k' k); reflexivity|].
  destruct (String.eqb_spec k k1) as [->|Hne]; simpl.
  - destruct (String.eqb k' k1); reflexivity.
  - rewrite IH.
    destruct (String.eqb_spec k' k1) as [H1|H1]; destruct (String.eqb_spec k' k) as [H2|H2];
      congruence.
Qed.

Lemma dict_get_not_key {V} (e : dict V) (k : string) :
  k ∉ map fst e -> dict_get e k = None.
Proof.
  induction e as [|[k1 v1] e IH]; simpl; [reflexivity|].
  rewrite not_elem_of_cons. intros [Hne Hnot].
  destruct (String.eqb_spec k k1); [congruence|]. apply IH. exact Hnot.
Qed.

Lemma dict_get_fold_set {V W} (f : V -> W) (e : dict V) (d : dict W) (k : string) :
  NoDup (map fst e) ->
  dict_get (fold_left (fun acc kv => dict_set acc kv.1 (f kv.2)) e d) k
  = match dict_get e k with Some v => Some (f v) | None => dict_get d k end.
Proof.
  revert d. induction e as [|[k1 v1] e IH]; intros d Hnd; simpl; [reflexivity|].
  apply NoDup_cons in Hnd as [Hnot Hnd].
  rewrite IH by exact Hnd. rewrite dict_get_set.
  destruct (String.eqb_spec k k1) as [->|Hne].
  - rewrite (dict_get_not_key e k1 Hnot). reflexivity.
  - destruct (dict_get e k); reflexivity.
Qed.

Lemma dict_set_keys {V} (d : dict V) (k : string) (v : V) (k' : string) :
  k' ∈ map fst (dict_set d k v) <-> k' = k \/ k' ∈ map fst d.
Proof.
  induction d as [|[k1 v1] d IH]; simpl.
  - rewrite elem_of_cons. split; [intros [H|H]; [left; exact H|inversion H]|].
    intros [H|H]; [left; exact H|inversion H].
  - destruct (String.eqb_spec k k1) as [->|Hne]; simpl; rewrite !elem_of_cons; [tauto|].
    rewrite IH. tauto.
Qed.

Lemma dict_set_nodup {V} (d : dict V) (k : string) (v : V) :
  NoDup (map fst d) -> NoDup (map fst (dict_set d k v)).
Proof.
  induction d as [|[k1 v1] d IH]; simpl; intros Hnd.
  - constructor; [apply not_elem_of_nil|constructor].
  - apply NoDup_cons in Hnd as [Hnot Hnd].
    destruct (String.eqb_spec k k1) as [->|Hne]; simpl; apply NoDup_cons.
    + split; assumption.
    + split; [|apply IH; exact Hnd].
      rewrite dict_set_keys. intros [H|H]; [congruence|contradiction].
Qed.

Lemma dict_update_nodup {V} (d e : dict V) :
  NoDup (map fst d) -> NoDup (map fst (dict_update d e)).
Proof.
  unfold dict_update. revert d. induction e as [|[k v] e IH]; intros d Hnd; simpl; [exact Hnd|].
  apply IH, dict_set_nodup, Hnd.
Qed.

Lemma build_parameters_nodup (a : Alert) : NoDup (map fst (build_parameters a)).
Proof. simpl. repeat constructor; set_solver. Qed.

Lemma apply_templates_get (p : dict PValue) (a : Alert) (k : string) :
  NoDup (map fst p) ->
  dict_get (apply_templates p a) k = option_map (template_value a) (dict_get p k).
Proof.
  intros Hnd. unfold apply_templates.
  rewrite (dict_get_fold_set (template_value a) p [] k Hnd).
  destruct (dict_get p k); reflexivity.
Qed.

Lemma dict_update_get {V} (d e : dict V) (k : string) :
  NoDup (map fst e) ->
  dict_get (dict_update d e) k = match dict_get e k with Some v => Some v | None => dict_get d k end.
Proof. intros Hnd. unfold dict_update. apply (dict_get_fold_set id e d k Hnd). Qed.

(** Claim C10, as stated: fails. For an alert named "a{{severity}}" with
    severity "critical", the built alert_name "a{{severity}}" overwrites the
    configured "configured", but [_apply_templates] then rewrites it, so the
    action carries "acritical", not the built value. *)
Lemma C10_templated_built_value :
  dict_get (build_parameters ex_template_alert) "alert_name" = Some (PStr "a{{severity}}") /\
  match build_action ex_template_alert ex_param_config with
  | inr x => dict_get (ra_parameters x) "alert_name" = Some (PStr "acritical")
  | inl _ => False
  end.
Proof. vm_compute. auto. Qed.

(** Claim C10 (amended): in [YAMLConfigHandler.get_actions] the five context
    parameters built by [build_parameters] overwrite configured parameters
    of the same keys, and the resulting action carries, under each of those
    keys, the built value after [_apply_templates]: the string values
    (alert_name, instance, severity) template-substituted, the dict values
    (alert_labels, alert_annotations) as built; the configured value never
    survives. (Configured parameter keys are distinct, as in a YAML dict.) *)
Theorem C10_built_parameters_override (a : Alert) (ac : ActionConfig) (x : RemediationAction)
    (k : string) :
  NoDup (map fst (default [] (ac_parameters ac))) ->
  In k ["alert_name"; "alert_labels"; "alert_annotations"; "instance"; "severity"] ->
  build_action a ac = inr x ->
  dict_get (ra_parameters x) k = option_map (template_value a) (dict_get (build_parameters a) k).
Proof.
  intros Hnd Hk Hb. unfold build_action in Hb.
  destruct (ac_action ac) as [act|]; [|discriminate].
  injection Hb as <-. cbn [ra_parameters].
  rewrite apply_templates_get
    by (change (NoDup (map fst (dict_update (default [] (ac_parameters ac)) (build_parameters a))));
        apply dict_update_nodup; exact Hnd).
  change (dict_set (dict_set (dict_set (dict_set (dict_set (default [] (ac_parameters ac))
            "alert_name" (PStr (alertname a))) "alert_labels" (PDict (a_labels a)))
            "alert_annotations" (PDict (a_annotations a))) "instance" (PStr (instance a)))
            "severity" (PStr (severity a)))
    with (dict_update (default [] (ac_parameters ac)) (build_parameters a)).
  rewrite dict_update_get by apply build_parameters_nodup.
  assert (Hin : exists v, dict_get (build_parameters a) k = Some v).
  { simpl in Hk. destruct Hk as [<-|[<-|[<-|[<-|[<-|[]]]]]]; eexists; reflexivity. }
  destruct Hin as [v ->]. reflexivity.
Qed.

Lemma C10_built_parameters_override_witness :
  (NoDup (map fst (default [] (ac_parameters ex_param_config))) /\
   In "alert_name" ["alert_name"; "alert_labels"; "alert_annotations"; "instance"; "severity"] /\
   build_action (ex_alert FIRING) ex_param_config = inr ex_built_action) /\
  dict_get (ra_parameters ex_built_action) "alert_name"
  = option_map (template_value (ex_alert FIRING))
      (dict_get (build_parameters (ex_alert FIRING)) "alert_name").
Proof.
  assert (Hnd : NoDup (map fst (default [] (ac_parameters ex_param_config))))
    by (simpl; repeat constructor; set_solver).
  assert (Hin : In "alert_name" ["alert_name"; "alert_labels"; "alert_annotations"; "instance"; "severity"])
    by (simpl; auto).
  assert (Hb : build_action (ex_alert FIRING) ex_param_config = inr ex_built_action)
    by (vm_compute; reflexivity).
  split; [split; [exact Hnd|split; [exact Hin|exact Hb]]|].
  apply (C10_built_parameters_override (ex_alert FIRING) ex_param_config ex_built_action
           "alert_name" Hnd Hin Hb).
Defined.

(* ------------------------------------------------------------------ *)
(** * Further properties of the code *)

(** memory.py [get_alert], [save_alert], [delete_alert]: after a save the
    record is read back under its fingerprint and the other keys are
    untouched; a delete returns whether the key was present, after it the
    key reads [None], and the other keys are untouched. *)
Theorem mem_save_get_delete (s : EngineSt) (t : TrackedAlert) (fp : string) :
  (get_alert (fingerprint t) (save_alert t s).1).2 = inr (Some t) /\
  (forall k, k <> fingerprint t -> (get_alert k (save_alert t s).1).2 = (get_alert k s).2) /\
  (mem_delete_alert fp s).2
    = inr (match m_alerts (es_store s) !! fp with Some _ => true | None => false end) /\
  (get_alert fp (mem_delete_alert fp s).1).2 = inr None /\
  (forall k, k <> fp -> (get_alert k (mem_delete_alert fp s).1).2 = (get_alert k s).2).
Proof.
  unfold get_alert, save_alert, mem_delete_alert. simpl.
  split; [rewrite lookup_insert_eq; reflexivity|].
  split; [intros k Hk; rewrite lookup_insert_ne by congruence; reflexivity|].
  destruct (m_alerts (es_store s) !! fp) eqn:E; simpl.
  - split; [reflexivity|]. split; [rewrite lookup_delete_eq; reflexivity|].
    intros k Hk. rewrite lookup_delete_ne by congruence. reflexivity.
  - split; [reflexivity|]. split; [rewrite E; reflexivity|]. reflexivity.
Qed.

(** memory.py and redis_store.py [lock] / [is_locked]: inside the scope of a
    lock that was free, [is_locked] of the key answers [True]; once the scope
    has ended (and, for Redis, the client is still connected) it answers
    [False]. *)
Theorem is_locked_in_lock_scope :
  (forall A (key : string) (f : bool -> bool -> SM EngineSt A) (s : EngineSt),
     mem_lock_locked (es_store s) key = false ->
     mem_lock key (fun acquired => b ← mem_is_locked key; f acquired b) s
     = mem_lock key (fun acquired => f acquired true) s /\
     (mem_is_locked key (mem_lock key (fun acquired => f acquired true) s).1).2 = inr false) /\
  (forall A (key : string) (timeout : option Z) (f : bool -> bool -> SM RedisStore A)
          (rs : RedisStore),
     r_connected rs = true -> redis_held rs key = false ->
     redis_lock key timeout (fun acquired => b ← redis_is_locked key; f acquired b) rs
     = redis_lock key timeout (fun acquired => f acquired true) rs /\
     (r_connected (redis_lock key timeout (fun acquired => f acquired true) rs).1 = true ->
      (redis_is_locked key (redis_lock key timeout (fun acquired => f acquired true) rs).1).2
      = inr false)).
Proof.
  split.
  - intros A key f s Hfree. rewrite !(mem_lock_free key _ s Hfree). simpl.
    unfold mbind, SM_bind, mem_is_locked at 1. simpl.
    rewrite bool_decide_eq_true_2 by set_solver. split; [reflexivity|].
    destruct (f true true _) as [s2 r]. simpl.
    unfold mem_release. destruct (mem_lock_locked (es_store s2) key); simpl;
      unfold mem_is_locked; simpl; rewrite bool_decide_eq_false_2 by set_solver; reflexivity.
  - intros A key timeout f rs Hc Hh. unfold redis_lock. rewrite Hc. simpl.
    destruct (redis_check_expire _ _ _).
    { split; [reflexivity|]. intros _. unfold redis_is_locked. simpl. rewrite Hc, Hh. reflexivity. }
    rewrite Hh. simpl.
    unfold mbind, SM_bind, redis_is_locked at 1. simpl.
    unfold redis_held at 1. simpl. rewrite lookup_insert_eq. simpl. split; [reflexivity|].
    destruct (f true true _) as [rs2 r]. simpl.
    destruct rs2 as [[|] srv2 clk2 lt2]; simpl; intros Hc'; [|congruence].
    unfold redis_is_locked, redis_held. simpl. rewrite lookup_delete_eq. reflexivity.
Qed.


Lemma insert_desc_perm (x : TrackedAlert) (l : list TrackedAlert) :
  Permutation (insert_desc x l) (x :: l).
Proof.
  induction l as [|y l IH]; simpl; [reflexivity|].
  destruct (Nat.ltb (received_at y) (received_at x)); [reflexivity|].
  rewrite IH. apply perm_swap.
Qed.

Lemma sort_received_desc_perm (l : list TrackedAlert) :
  Permutation (sort_received_desc l) l.
Proof.
  unfold sort_received_desc.
  assert (H : forall acc, Permutation (fold_left (fun acc x => insert_desc x acc) l acc) (l ++ acc)%list).
  { induction l as [|x l IH]; intros acc; simpl; [reflexivity|].
    rewrite IH, insert_desc_perm. symmetry. apply Permutation_middle. }
  rewrite H, app_nil_r. reflexivity.
Qed.

Lemma insert_desc_sorted (x : TrackedAlert) (l : list TrackedAlert) :
  sorted_desc l = true -> sorted_desc (insert_desc x l) = true.
Proof.
  induction l as [|y l IH]; simpl; [reflexivity|]. intros Hs.
  destruct (Nat.ltb_spec (received_at y) (received_at x)) as [Hlt|Hge].
  - simpl. apply andb_true_intro. split; [apply Nat.leb_le; lia|exact Hs].
  - assert (Hl : sorted_desc l = true) by (destruct l; [reflexivity|apply andb_prop in Hs; tauto]).
    specialize (IH Hl). destruct l as [|z l']; simpl in *.
    + rewrite andb_true_r. apply Nat.leb_le. lia.
    + apply andb_prop in Hs as [Hzy _].
      destruct (Nat.ltb (received_at z) (received_at x)); simpl in *;
        apply andb_true_intro; split; try exact IH; apply Nat.leb_le; apply Nat.leb_le in Hzy; lia.
Qed.

Lemma sort_received_desc_sorted (l : list TrackedAlert) : sorted_desc (sort_received_desc l) = true.
Proof.
  unfold sort_received_desc.
  assert (H : forall acc, sorted_desc acc = true ->
                sorted_desc (fold_left (fun acc x => insert_desc x acc) l acc) = true).
  { induction l as [|x l IH]; intros acc Hacc; simpl; [exact Hacc|].
    apply IH, insert_desc_sorted, Hacc. }
  apply H. reflexivity.
Qed.

Lemma sorted_desc_tail (x : TrackedAlert) (l : list TrackedAlert) :
  sorted_desc (x :: l) = true -> sorted_desc l = true.
Proof. destruct l; simpl; [reflexivity|]. intros H. apply andb_prop in H. tauto. Qed.

Lemma sorted_desc_skipn (n : nat) (l : list TrackedAlert) :
  sorted_desc l = true -> sorted_desc (skipn n l) = true.
Proof.
  revert l. induction n as [|n IH]; intros l H; [exact H|].
  destruct l as [|x l]; [reflexivity|]. simpl. apply IH. exact (sorted_desc_tail x l H).
Qed.

Lemma sorted_desc_firstn (n : nat) (l : list TrackedAlert) :
  sorted_desc l = true -> sorted_desc (firstn n l) = true.
Proof.
  revert l. induction n as [|n IH]; intros l H; [reflexivity|].
  destruct l as [|x l]; [reflexivity|].
  specialize (IH l (sorted_desc_tail x l H)).
  destruct n as [|n']; [reflexivity|]. destruct l as [|y l']; [reflexivity|].
  simpl in *. apply andb_prop in H as [Hxy _]. rewrite Hxy. exact IH.
Qed.

Lemma py_slice_sorted (l : list TrackedAlert) (b e : Z) :
  sorted_desc l = true -> sorted_desc (py_slice l b e) = true.
Proof. intros H. unfold py_slice. apply sorted_desc_firstn, sorted_desc_skipn, H. Qed.

Lemma py_slice_incl {A} (l : list A) (b e : Z) (x : A) : In x (py_slice l b e) -> In x l.
Proof.
  unfold py_slice. intros H.
  assert (Hf : forall n (l' : list A), In x (firstn n l') -> In x l').
  { intros n l' Hin. rewrite <- (firstn_skipn n l'). apply in_or_app. left. exact Hin. }
  assert (Hs : forall n (l' : list A), In x (skipn n l') -> In x l').
  { intros n l' Hin. rewrite <- (firstn_skipn n l'). apply in_or_app. right. exact Hin. }
  exact (Hs _ _ (Hf _ _ H)).
Qed.

Lemma py_slice_length {A} (l : list A) (offset limit : Z) :
  (0 <= offset)%Z -> (0 <= limit)%Z ->
  length (py_slice l offset (offset + limit)) = Z.to_nat (Z.min limit (Z.of_nat (length l) - offset)).
Proof.
  intros Ho Hl. unfold py_slice, py_slice_index.
  destruct (Z.ltb_spec offset 0); [lia|]. destruct (Z.ltb_spec (offset + limit) 0); [lia|].
  rewrite length_firstn, length_skipn. lia.
Qed.

Lemma status_value_in (st : AlertTrackingStatus) : In (status_value st) (map status_value all_statuses).
Proof. destruct st; simpl; tauto. Qed.

(** memory.py [list_alerts]: every returned record is a stored record with
    the requested status, the result is sorted by [received_at] descending,
    for non-negative [offset] and [limit] its length is
    [min(limit, len(kept) - offset)] (at least 0), and an unknown status
    string yields the empty list. *)
Theorem list_alerts_of_spec (alerts : list TrackedAlert) (status_arg : option string) (limit offset : Z) :
  let kept := match status_filter status_arg with
              | Some s => List.filter (fun t => String.eqb (status_value (status t)) s) alerts
              | None => alerts
              end in
  let r := list_alerts_of alerts status_arg limit offset in
  (forall t, In t r ->
     In t alerts /\ forall s, status_filter status_arg = Some s -> status_value (status t) = s) /\
  sorted_desc r = true /\
  ((0 <= offset)%Z -> (0 <= limit)%Z ->
   length r = Z.to_nat (Z.min limit (Z.of_nat (length kept) - offset))) /\
  (forall s, status_filter status_arg = Some s -> ~ In s (map status_value all_statuses) -> r = []).
Proof.
  intros kept r.
  assert (Hmem : forall t, In t r ->
     In t alerts /\ forall s, status_filter status_arg = Some s -> status_value (status t) = s).
  { intros t Ht. subst r. unfold list_alerts_of in Ht. fold kept in Ht.
    apply py_slice_incl in Ht.
    apply (Permutation_in _ (sort_received_desc_perm kept)) in Ht.
    subst kept. destruct (status_filter status_arg) as [s0|].
    - apply filter_In in Ht as [Hin Heq]. split; [exact Hin|].
      intros s Hs. injection Hs as <-. apply String.eqb_eq. exact Heq.
    - split; [exact Ht|]. discriminate. }
  split; [exact Hmem|]. split.
  { subst r. unfold list_alerts_of. apply py_slice_sorted, sort_received_desc_sorted. }
  split.
  { intros Ho Hl. subst r. unfold list_alerts_of. fold kept.
    rewrite py_slice_length by assumption.
    rewrite (Permutation_length (sort_received_desc_perm kept)). reflexivity. }
  intros s Hs Hnot. destruct r as [|t r'] eqn:Er; [reflexivity|].
  exfalso. destruct (Hmem t (or_introl eq_refl)) as [_ Hst].
  apply Hnot. rewrite <- (Hst s Hs). apply status_value_in.
Qed.

Lemma dict_get_or_set (d : dict Z) (k k' : string) (v : Z) :
  dict_get_or (dict_set d k v) k' 0%Z = if String.eqb k' k then v else dict_get_or d k' 0%Z.
Proof. unfold dict_get_or. rewrite dict_get_set. destruct (String.eqb k' k); reflexivity. Qed.

Lemma dict_get_or_incr (d : dict Z) (k k' : string) :
  dict_get_or (dict_incr d k) k' 0%Z = (dict_get_or d k' 0 + if String.eqb k' k then 1 else 0)%Z.
Proof.
  unfold dict_incr. rewrite dict_get_or_set.
  destruct (String.eqb_spec k' k) as [->|]; lia.
Qed.

Lemma sum_values_set (d : dict Z) (k : string) (v : Z) :
  sum_values (dict_set d k v) = (sum_values d - dict_get_or d k 0 + v)%Z.
Proof.
  unfold sum_values, dict_get_or. induction d as [|[k1 v1] d IH]; simpl; [lia|].
  destruct (String.eqb_spec k k1) as [->|Hne]; simpl; [lia|].
  rewrite IH. destruct (dict_get d k); lia.
Qed.

Lemma sum_values_incr (d : dict Z) (k : string) :
  sum_values (dict_incr d k) = (sum_values d + 1)%Z.
Proof. unfold dict_incr. rewrite sum_values_set. lia. Qed.



(** memory.py [get_stats]: [total] is the number of records, each status and
    severity count is the number of records carrying it, and the counts of
    each of the two dictionaries sum to [total]. *)
Theorem get_stats_of_counts (alerts : list TrackedAlert) :
  let stats := get_stats_of alerts in
  st_total stats = Z.of_nat (length alerts) /\
  (forall v, dict_get_or (st_by_status stats) v 0%Z
             = Z.of_nat (length (List.filter (fun t => String.eqb (status_value (status t)) v) alerts))) /\
  (forall v, dict_get_or (st_by_severity stats) v 0%Z
             = Z.of_nat (length (List.filter (fun t => String.eqb (severity_or_unknown t) v) alerts))) /\
  sum_values (st_by_status stats) = st_total stats /\
  sum_values (st_by_severity stats) = st_total stats.
Proof.
  intros stats. subst stats. unfold get_stats_of.
  assert (H : forall acc,
    let st := fold_left stats_step alerts acc in
    st_total st = (st_total acc + Z.of_nat (length alerts))%Z /\
    (forall v, dict_get_or (st_by_status st) v 0%Z
       = (dict_get_or (st_by_status acc) v 0
          + Z.of_nat (length (List.filter (fun t => String.eqb (status_value (status t)) v) alerts)))%Z) /\
    (forall v, dict_get_or (st_by_severity st) v 0%Z
       = (dict_get_or (st_by_severity acc) v 0
          + Z.of_nat (length (List.filter (fun t => String.eqb (severity_or_unknown t) v) alerts)))%Z) /\
    sum_values (st_by_status st) = (sum_values (st_by_status acc) + Z.of_nat (length alerts))%Z /\
    sum_values (st_by_severity st) = (sum_values (st_by_severity acc) + Z.of_nat (length alerts))%Z).
  { induction alerts as [|t l IH]; intros acc; simpl.
    - repeat split; intros; lia.
    - destruct (IH (stats_step acc t)) as (H1 & H2 & H3 & H4 & H5). simpl in *.
      split; [rewrite H1; lia|]. split.
      { intros v. rewrite H2, dict_get_or_incr.
        rewrite (String.eqb_sym (status_value (status t)) v). destruct (String.eqb v (status_value (status t))); simpl; lia. }
      split.
      { intros v. rewrite H3, dict_get_or_incr.
        rewrite (String.eqb_sym (severity_or_unknown t) v). destruct (String.eqb v (severity_or_unknown t)); simpl; lia. }
      split; [rewrite H4, sum_values_incr; lia|rewrite H5, sum_values_incr; lia]. }
  destruct (H (mkStats 0 [] [])) as (H1 & H2 & H3 & H4 & H5). simpl in *.
  repeat split.
  - exact H1.
  - intros v. rewrite H2. unfold dict_get_or. simpl. lia.
  - intros v. rewrite H3. unfold dict_get_or. simpl. lia.
  - rewrite H4, H1. unfold sum_values. simpl. lia.
  - rewrite H5, H1. unfold sum_values. simpl. lia.
Qed.


Lemma append_cancel_l (p a b : string) : (p ++ a = p ++ b)%string -> a = b.
Proof. induction p as [|c p IH]; simpl; [auto|]. intros H. injection H. exact IH. Qed.

Lemma alert_key_inj (fp1 fp2 : string) : alert_key fp1 = alert_key fp2 -> fp1 = fp2.
Proof. apply append_cancel_l. Qed.

Lemma status_value_inj (st1 st2 : AlertTrackingStatus) : status_value st1 = status_value st2 -> st1 = st2.
Proof. destruct st1, st2; simpl; congruence. Qed.

Lemma index_key_status_inj (st1 st2 : AlertTrackingStatus) :
  index_key (status_value st1) = index_key (status_value st2) -> st1 = st2.
Proof. unfold index_key. intros H. apply append_cancel_l, append_cancel_l, status_value_inj in H. exact H. Qed.

Lemma rd_set_sets_twice (db : RedisDB) (m1 m2 : gmap string (gset string)) :
  rd_set_sets (rd_set_sets db m1) m2 = rd_set_sets db m2.
Proof. reflexivity. Qed.

Lemma srem_all_spec (sts : list AlertTrackingStatus) (m : string) (db : RedisDB) :
  exists S', srem_all sts m db = (rd_set_sets db S', inr ()) /\
    forall k x, x ∈ default ∅ (S' !! k) <->
      if existsb (String.eqb k) (map (fun st => index_key (status_value st)) sts)
      then x ∈ smembers db k /\ x <> m else x ∈ smembers db k.
Proof.
  revert db. induction sts as [|st rest IH]; intros db.
  - exists (rd_sets db). split; [destruct db; reflexivity|]. intros k x. simpl. reflexivity.
  - simpl. unfold mbind, SM_bind, srem at 1.
    set (db1 := rd_set_sets db _).
    destruct (IH db1) as [S' [Heq Hmem]]. rewrite Heq.
    exists S'. split; [reflexivity|]. intros k x. rewrite Hmem.
    unfold smembers at 1 2. subst db1. simpl.
    destruct (String.eqb_spec k (index_key (status_value st))) as [->|Hne].
    + rewrite lookup_insert_eq. simpl. destruct (existsb _ _); set_solver.
    + rewrite lookup_insert_ne by congruence. reflexivity.
Qed.

Lemma rd_save_alert_spec (db : RedisDB) (t : TrackedAlert) :
  rd_connected db = true ->
  (status t = RESOLVED -> rd_ttl_ok db = true) ->
  exists S', rd_save_alert t db =
    (mkRedisDB true
       (<[alert_key (fingerprint t) :=
           (t, if status_eqb (status t) RESOLVED then Some (rd_alert_ttl_hours db * 3600)%Z else None)]>
          (rd_strings db)) S' (rd_alert_ttl_hours db) (rd_now_ms db), inr ()) /\
    forall k x, x ∈ default ∅ (S' !! k) <->
      if String.eqb k (index_key (status_value (status t))) then x = fingerprint t \/ (x ∈ smembers db k /\ x <> fingerprint t)
      else if existsb (String.eqb k) status_index_keys then x ∈ smembers db k /\ x <> fingerprint t
      else x ∈ smembers db k.
Proof.
  intros Hc Hok. unfold rd_save_alert. rewrite Hc. simpl.
  set (ttl := if status_eqb (status t) RESOLVED then Some (rd_alert_ttl_hours db * 3600)%Z else None).
  assert (Hset : (if status_eqb (status t) RESOLVED
                  then redis_setex (alert_key (fingerprint t)) (rd_alert_ttl_hours db * 3600)%Z t
                  else redis_set (alert_key (fingerprint t)) t None) db
                 = redis_set (alert_key (fingerprint t)) t ttl db).
  { subst ttl. destruct (status_eqb (status t) RESOLVED) eqn:E; [|reflexivity].
    assert (Hr : status t = RESOLVED) by (destruct (status t); try discriminate; reflexivity).
    specialize (Hok Hr). unfold rd_ttl_ok in Hok. unfold redis_setex.
    destruct (redis_check_expire _ _ _); [discriminate|reflexivity]. }
  unfold mbind at 1, SM_bind at 1. rewrite Hset. unfold redis_set at 1.
  set (db1 := rd_set_strings db _).
  unfold rd_update_status_index. replace (rd_connected db1) with true by (subst db1; simpl; congruence). cbn [negb].
  destruct (srem_all_spec all_statuses (fingerprint t) db1) as [S1 [Heq Hmem]].
  unfold mbind, SM_bind. rewrite Heq. unfold sadd. simpl.
  eexists. split.
  { subst db1. unfold rd_set_sets, rd_set_strings. simpl. rewrite Hc. reflexivity. }
  intros k x. fold status_index_keys in Hmem.
  destruct (String.eqb_spec k (index_key (status_value (status t)))) as [->|Hne].
  - rewrite lookup_insert_eq. simpl. unfold smembers at 1. simpl.
    rewrite elem_of_union, elem_of_singleton, Hmem.
    assert (Hin : existsb (String.eqb (index_key (status_value (status t)))) status_index_keys = true).
    { apply existsb_exists. exists (index_key (status_value (status t))). split; [|apply String.eqb_refl].
      unfold status_index_keys. apply (in_map (fun st => index_key (status_value st))); destruct (status t); simpl; tauto. }
    rewrite Hin. unfold smembers. subst db1. simpl. tauto.
  - rewrite lookup_insert_ne by congruence. simpl. rewrite Hmem. unfold smembers. subst db1. simpl. reflexivity.
Qed.

Lemma index_key_in_status_index_keys (st : AlertTrackingStatus) :
  existsb (String.eqb (index_key (status_value st))) status_index_keys = true.
Proof.
  apply existsb_exists. exists (index_key (status_value st)). split; [|apply String.eqb_refl].
  unfold status_index_keys. apply (in_map (fun st => index_key (status_value st))).
  destruct st; simpl; tauto.
Qed.

Lemma rd_delete_alert_spec (db : RedisDB) (fp : string) :
  rd_connected db = true ->
  exists S', rd_delete_alert fp db =
    (mkRedisDB true (delete (alert_key fp) (rd_strings db)) S' (rd_alert_ttl_hours db) (rd_now_ms db),
     inr (match rd_strings db !! alert_key fp with Some _ => true | None => false end)) /\
    forall k x, x ∈ default ∅ (S' !! k) <->
      if existsb (String.eqb k) status_index_keys then x ∈ smembers db k /\ x <> fp
      else x ∈ smembers db k.
Proof.
  intros Hc. unfold rd_delete_alert. rewrite Hc. cbn [negb].
  unfold mbind, SM_bind, redis_delete at 1.
  destruct (rd_strings db !! alert_key fp) as [v|] eqn:E.
  - set (db1 := rd_set_strings db _).
    destruct (srem_all_spec all_statuses fp db1) as [S1 [Heq Hmem]]. rewrite Heq.
    exists S1. split; [subst db1; unfold rd_set_sets, rd_set_strings; simpl; rewrite Hc; reflexivity|].
    exact Hmem.
  - destruct (srem_all_spec all_statuses fp db) as [S1 [Heq Hmem]]. rewrite Heq.
    exists S1. split; [|exact Hmem].
    rewrite delete_id by exact E. unfold rd_set_sets. simpl. rewrite Hc. reflexivity.
Qed.

(** redis_store.py [save_alert], [get_alert], [delete_alert] and
    [_update_status_index], on a connected client: a save of a record that
    is not RESOLVED, or of a RESOLVED one when Redis accepts the TTL
    [alert_ttl_hours * 3600], succeeds and is read back, leaves other fingerprints alone, sets a TTL of
    [alert_ttl_hours * 3600] exactly for RESOLVED records, and puts the
    fingerprint in exactly the index set of its status; a delete returns
    whether the key existed, after it the key reads [None] and the
    fingerprint is in no status index. *)
Theorem rd_save_get_delete (db : RedisDB) (t : TrackedAlert) (fp : string) :
  rd_connected db = true ->
  (status t = RESOLVED -> rd_ttl_ok db = true) ->
  let db1 := (rd_save_alert t db).1 in
  let db2 := (rd_delete_alert fp db).1 in
  (rd_save_alert t db).2 = inr () /\
  (rd_get_alert (fingerprint t) db1).2 = inr (Some t) /\
  (forall fp', fp' <> fingerprint t -> (rd_get_alert fp' db1).2 = (rd_get_alert fp' db).2) /\
  option_map snd (rd_strings db1 !! alert_key (fingerprint t))
    = Some (if status_eqb (status t) RESOLVED then Some (rd_alert_ttl_hours db * 3600)%Z else None) /\
  (forall st, fingerprint t ∈ smembers db1 (index_key (status_value st)) <-> st = status t) /\
  (rd_delete_alert fp db).2
    = inr (match rd_strings db !! alert_key fp with Some _ => true | None => false end) /\
  (rd_get_alert fp db2).2 = inr None /\
  (forall st, fp ∉ smembers db2 (index_key (status_value st))).
Proof.
  intros Hc Hok db1 db2.
  destruct (rd_save_alert_spec db t Hc Hok) as [S1 [Hs Hm1]].
  destruct (rd_delete_alert_spec db fp Hc) as [S2 [Hd Hm2]].
  subst db1 db2. rewrite Hs, Hd. simpl.
  unfold rd_get_alert, redis_get. simpl. rewrite Hc. simpl.
  split; [reflexivity|].
  split; [rewrite lookup_insert_eq; reflexivity|].
  split; [intros fp' Hne; rewrite lookup_insert_ne; [reflexivity|intros H; apply Hne, alert_key_inj; congruence]|].
  split; [rewrite lookup_insert_eq; reflexivity|].
  split.
  { intros st. unfold smembers. simpl. rewrite Hm1.
    destruct (String.eqb_spec (index_key (status_value st)) (index_key (status_value (status t)))) as [Heq|Hne].
    - apply index_key_status_inj in Heq. tauto.
    - rewrite index_key_in_status_index_keys. split; [tauto|intros ->; contradiction]. }
  split; [reflexivity|].
  split; [rewrite lookup_delete_eq; reflexivity|].
  intros st. unfold smembers. simpl. rewrite Hm2, index_key_in_status_index_keys. tauto.
Qed.

Lemma rd_count_index_sets (db db' : RedisDB) :
  rd_sets db = rd_sets db' -> rd_count_index db = rd_count_index db'.
Proof. intros H. unfold rd_count_index, smembers. rewrite H. reflexivity. Qed.

(** redis_store.py [save_alert] and the TTL of RESOLVED records: the saved
    key of a record that is not RESOLVED carries no expiry; when a RESOLVED
    record saved with a TTL Redis accepts expires, [get_alert] returns
    [None] but its fingerprint stays in the "resolved" index set and the
    counts of [get_stats] (the index cardinalities) do not change. An
    [alert_ttl_hours] of 0 or less is a TTL Redis rejects: saving a
    RESOLVED record then raises ResponseError ("invalid expire time" when
    the TTL is within the 64-bit range) and writes nothing, so the
    stored record keeps its previous status. *)
Theorem rd_resolved_expiry (db : RedisDB) (t : TrackedAlert) :
  rd_connected db = true ->
  let db1 := (rd_save_alert t db).1 in
  let db2 := redis_expire (alert_key (fingerprint t)) db1 in
  (status t <> RESOLVED -> db2 = db1) /\
  (status t = RESOLVED -> rd_ttl_ok db = true ->
     (rd_get_alert (fingerprint t) db2).2 = inr None /\
     fingerprint t ∈ smembers db2 (index_key (status_value RESOLVED)) /\
     rd_count_index db2 = rd_count_index db1) /\
  ((rd_alert_ttl_hours db <= 0)%Z -> rd_ttl_ok db = false) /\
  (status t = RESOLVED -> rd_ttl_ok db = false ->
     exists e, rd_save_alert t db = (db, inl e) /\
       (LLONG_MIN <= rd_alert_ttl_hours db * 3600 <= LLONG_MAX ->
        e = "ResponseError: invalid expire time in 'setex' command")%Z).
Proof.
  intros Hc db1 db2. split; [|split; [|split]].
  - intros Hne.
    assert (Hok : status t = RESOLVED -> rd_ttl_ok db = true) by (intros Hr; contradiction).
    destruct (rd_save_alert_spec db t Hc Hok) as [S1 [Hs Hm1]].
    subst db1 db2. rewrite Hs. simpl. unfold redis_expire. simpl.
    rewrite lookup_insert_eq. destruct (status t); try reflexivity. contradiction.
  - intros Hr Hok.
    destruct (rd_save_alert_spec db t Hc (fun _ => Hok)) as [S1 [Hs Hm1]].
    subst db1 db2. rewrite Hs. simpl. unfold redis_expire. simpl.
    rewrite lookup_insert_eq. rewrite Hr. simpl.
    split; [unfold rd_get_alert, redis_get; simpl; rewrite lookup_delete_eq; reflexivity|].
    split; [|apply rd_count_index_sets; reflexivity].
    unfold smembers. simpl. rewrite Hm1, Hr. left. reflexivity.
  - intros Hle. unfold rd_ttl_ok, redis_check_expire.
    destruct ((rd_alert_ttl_hours db * 3600 <? LLONG_MIN) || (LLONG_MAX <? rd_alert_ttl_hours db * 3600))%Z;
      [reflexivity|].
    assert (H0 : (rd_alert_ttl_hours db * 3600 <=? 0)%Z = true) by (apply Z.leb_le; lia).
    rewrite H0. reflexivity.
  - intros Hr Hbad. unfold rd_ttl_ok in Hbad.
    unfold rd_save_alert. rewrite Hc. cbn [negb].
    unfold mbind at 1, SM_bind at 1. rewrite Hr. simpl. unfold redis_setex.
    destruct (redis_check_expire "setex" _ _) as [e|] eqn:E; [|discriminate].
    exists e. split; [reflexivity|]. intros Hlo.
    unfold redis_check_expire in E.
    destruct ((rd_alert_ttl_hours db * 3600 <? LLONG_MIN) || (LLONG_MAX <? rd_alert_ttl_hours db * 3600))%Z
      eqn:Er.
    + apply orb_true_iff in Er. destruct Er as [Er|Er]; apply Z.ltb_lt in Er; lia.
    + revert E. case_match; intros E; [|discriminate]. injection E as <-. reflexivity.
Qed.

Lemma dict_set_map_fst {V} (d : dict V) (k : string) (v : V) :
  map fst (dict_set d k v) = if dict_mem d k then map fst d else (map fst d ++ [k])%list.
Proof.
  unfold dict_mem. induction d as [|[k1 v1] d IH]; simpl; [reflexivity|].
  destruct (String.eqb_spec k k1) as [->|Hne]; simpl; [reflexivity|].
  rewrite IH. destruct (dict_get d k); reflexivity.
Qed.

Lemma dict_get_del {V} (d : dict V) (k k' : string) :
  dict_get (dict_del d k) k' = if String.eqb k' k then None else dict_get d k'.
Proof.
  unfold dict_del. induction d as [|[k1 v1] d IH]; simpl.
  - destruct (String.eqb k' k); reflexivity.
  - destruct (String.eqb_spec k k1) as [E|Hne]; simpl; rewrite IH.
    + destruct (String.eqb_spec k' k); [reflexivity|].
      destruct (String.eqb_spec k' k1); [congruence|reflexivity].
    + destruct (String.eqb_spec k' k1) as [E1|H1].
      * destruct (String.eqb_spec k' k); [congruence|reflexivity].
      * reflexivity.
Qed.

(** registry.py [register], [unregister], [get_handler], [list_handlers]:
    registering replaces a handler of the same name in place or appends the
    name; unregistering makes the name unknown, leaves the other names, and
    removes the name from the listing. *)
Theorem registry_register_unregister (r : HandlerRegistry) (h : Handler) (n k : string) :
  get_handler (register r h) k = (if String.eqb k (h_name h) then Some h else get_handler r k) /\
  list_handlers (register r h)
    = (if dict_mem (reg_handlers r) (h_name h) then list_handlers r
       else (list_handlers r ++ [h_name h])%list) /\
  get_handler (unregister r n) k = (if String.eqb k n then None else get_handler r k) /\
  list_handlers (unregister r n) = List.filter (fun k' => negb (String.eqb n k')) (list_handlers r).
Proof.
  unfold get_handler, list_handlers, register, unregister. simpl.
  split; [apply dict_get_set|]. split; [apply dict_set_map_fst|].
  destruct (dict_mem (reg_handlers r) n) eqn:Hm; simpl.
  - split; [apply dict_get_del|].
    unfold dict_del. clear Hm. induction (reg_handlers r) as [|[k1 v1] d IH]; simpl; [reflexivity|].
    destruct (String.eqb n k1); simpl; rewrite IH; reflexivity.
  - assert (Hnone : dict_get (reg_handlers r) n = None).
    { unfold dict_mem in Hm. destruct (dict_get (reg_handlers r) n); congruence. }
    split.
    + destruct (String.eqb_spec k n) as [->|]; [exact Hnone|reflexivity].
    + clear Hm. induction (reg_handlers r) as [|[k1 v1] d IH]; simpl; [reflexivity|].
      simpl in Hnone. destruct (String.eqb_spec n k1) as [->|Hne]; [discriminate|].
      simpl. f_equal. apply IH. exact Hnone.
Qed.


Lemma dict_get_In {V} (d : dict V) (k : string) (v : V) : dict_get d k = Some v -> In (k, v) d.
Proof.
  induction d as [|[k1 v1] d IH]; simpl; [discriminate|].
  destruct (String.eqb_spec k k1) as [->|]; [intros [= ->]; left; reflexivity|].
  intros H. right. exact (IH H).
Qed.

(** How one file's reading ends. *)
Lemma file_alert_items_cases (f : MappingFile) :
  match file_alert_items f with
  | inl e =>
      f = LoadRaises e \/
      exists doc, f = Loaded doc /\ py_truthy doc = true /\
        ((e = "TypeError" /\ forall d, doc <> YDict d) \/
         (e = "AttributeError" /\ exists d v, doc = YDict d /\ dict_get d "alerts" = Some v /\
                                  forall items, v <> YDict items))
  | inr (Some items) => exists d, f = Loaded (YDict d) /\ dict_get d "alerts" = Some (YDict items)
  | inr None => True
  end.
Proof.
  destruct f as [e|doc]; simpl; [left; reflexivity|].
  unfold file_alert_items, load_yaml_config.
  destruct (py_truthy doc) eqn:T; [|simpl; exact I].
  destruct doc; simpl;
    try (right; eexists; split; [reflexivity|]; split; [exact T|]; left; split; [reflexivity|];
         intros ? ?; discriminate).
  all: try (destruct (existsb _ _); simpl;
            [right; eexists; split; [reflexivity|]; split; [exact T|]; left; split; [reflexivity|];
             intros ? ?; discriminate|exact I]).
  - destruct (str_contains _ _); simpl; [|exact I].
    right; eexists; split; [reflexivity|]; split; [exact T|]; left; split; [reflexivity|].
    intros ? ?; discriminate.
  - unfold dict_mem. destruct (dict_get d "alerts") as [v|] eqn:E; simpl; [|exact I].
    destruct v; simpl;
      try (right; eexists; split; [reflexivity|]; split; [exact T|]; right; split; [reflexivity|];
           exists d; eexists; split; [reflexivity|]; split; [exact E|]; intros ? ?; discriminate).
    exists d. split; [reflexivity|exact E].
Qed.

Lemma file_alert_items_nodup (f : MappingFile) (items : list (string * YamlValue)) :
  (forall doc, f = Loaded doc -> yaml_wf doc = true) ->
  file_alert_items f = inr (Some items) -> NoDup (map fst items).
Proof.
  intros Hwf Hf. pose proof (file_alert_items_cases f) as Hc. rewrite Hf in Hc.
  destruct Hc as [d [-> Hd]]. specialize (Hwf _ eq_refl). simpl in Hwf.
  apply andb_true_iff in Hwf as [_ Hall].
  apply forallb_forall with (x := ("alerts", YDict items)) in Hall; [|apply dict_get_In, Hd].
  simpl in Hall. apply andb_true_iff in Hall as [Hnd _]. apply bool_decide_eq_true in Hnd. exact Hnd.
Qed.

Lemma load_files_spec (files : list MappingFile) (m : dict YamlValue) :
  (forall doc, In (Loaded doc) files -> yaml_wf doc = true) ->
  match load_files m files with
  | inl e => exists pre f post, files = (pre ++ f :: post)%list /\
               (forall g, In g pre -> exists x, file_alert_items g = inr x) /\
               file_alert_items f = inl e
  | inr m' => (forall f, In f files -> exists x, file_alert_items f = inr x) /\
              (NoDup (map fst m) -> NoDup (map fst m')) /\
              forall k, dict_get m' k = last_defined files k (dict_get m k)
  end.
Proof.
  revert m. induction files as [|f rest IH]; intros m Hwf; simpl.
  - split; [tauto|]. split; [tauto|]. reflexivity.
  - assert (Hr : forall doc, In (Loaded doc) rest -> yaml_wf doc = true)
      by (intros doc Hd; apply Hwf; right; exact Hd).
    unfold load_file.
    destruct (file_alert_items f) as [e|[items|]] eqn:Ef.
    + exists [], f, rest. split; [reflexivity|]. split; [intros g []|exact Ef].
    + assert (Ha : NoDup (map fst items)).
      { apply (file_alert_items_nodup f); [|exact Ef]. intros doc ->. apply Hwf. left. reflexivity. }
      specialize (IH (dict_update m items) Hr).
      change (fold_left (fun m0 kv => dict_set m0 kv.1 kv.2) items m) with (dict_update m items).
      destruct (load_files (dict_update m items) rest) as [e|m'].
      * destruct IH as (pre & g & post & -> & Hpre & Hg).
        exists (f :: pre), g, post. split; [reflexivity|]. split; [|exact Hg].
        intros h [<-|Hh]; [eauto|exact (Hpre h Hh)].
      * destruct IH as [Hall [Hd Hg]].
        split; [intros g [<-|Hg']; [eauto|exact (Hall g Hg')]|].
        split; [intros H; apply Hd, dict_update_nodup, H|].
        intros k. rewrite Hg, (dict_update_get m items k Ha). reflexivity.
    + specialize (IH m Hr). destruct (load_files m rest) as [e|m'].
      * destruct IH as (pre & g & post & -> & Hpre & Hg).
        exists (f :: pre), g, post. split; [reflexivity|]. split; [|exact Hg].
        intros h [<-|Hh]; [eauto|exact (Hpre h Hh)].
      * destruct IH as [Hall [Hd Hg]].
        split; [intros g [<-|Hg']; [eauto|exact (Hall g Hg')]|].
        split; [exact Hd|exact Hg].
Qed.

(** config.py [load_yaml_config] and [load_all_mappings], on documents
    whose dicts have distinct keys: when the directory is missing the
    result is empty; otherwise the files are read in order (.yaml files
    first, then .yml) and the first file that fails raises: either [open]
    or [yaml.safe_load] raised, or the document is truthy and either is not
    a dict and the ["alerts" in ...] test or the indexing raises TypeError,
    or is a dict whose "alerts" value is not a dict (null, a list, a
    scalar) and [.items()] raises AttributeError. When no file fails, the
    result has no duplicate names and maps each alert name to its
    configuration in the last file whose "alerts" dict has it. *)
Theorem load_all_mappings_result (path_exists : bool) (yaml_files yml_files : list MappingFile) :
  (forall doc, In (Loaded doc) (yaml_files ++ yml_files)%list -> yaml_wf doc = true) ->
  match load_all_mappings path_exists yaml_files yml_files with
  | inl e =>
      path_exists = true /\
      exists pre f post, (yaml_files ++ yml_files)%list = (pre ++ f :: post)%list /\
        (forall g, In g pre -> exists x, file_alert_items g = inr x) /\
        file_alert_items f = inl e /\
        (f = LoadRaises e \/
         exists doc, f = Loaded doc /\ py_truthy doc = true /\
           ((e = "TypeError" /\ forall d, doc <> YDict d) \/
            (e = "AttributeError" /\ exists d v, doc = YDict d /\ dict_get d "alerts" = Some v /\
                                     forall items, v <> YDict items)))
  | inr m =>
      NoDup (map fst m) /\
      (path_exists = false -> m = []) /\
      (path_exists = true ->
         (forall f, In f (yaml_files ++ yml_files)%list -> exists x, file_alert_items f = inr x) /\
         forall k, dict_get m k = last_defined (yaml_files ++ yml_files)%list k None)
  end.
Proof.
  intros Hwf. unfold load_all_mappings. destruct path_exists; simpl.
  - pose proof (load_files_spec (yaml_files ++ yml_files)%list [] Hwf) as H.
    destruct (load_files [] (yaml_files ++ yml_files)%list) as [e|m].
    + destruct H as (pre & f & post & Heq & Hpre & Hf).
      split; [reflexivity|]. exists pre, f, post. split; [exact Heq|]. split; [exact Hpre|].
      split; [exact Hf|]. pose proof (file_alert_items_cases f) as Hc. rewrite Hf in Hc. exact Hc.
    + destruct H as [Hall [Hd Hg]]. split; [apply Hd; constructor|].
      split; [discriminate|]. intros _. split; [exact Hall|exact Hg].
  - split; [constructor|]. split; [reflexivity|discriminate].
Qed.

Lemma with_build_parameters_spec (own : dict PValue) (a : Alert) :
  NoDup (map fst own) ->
  (dict_get own "host" = Some (PStr (instance a)) \/ dict_get own "hosts" = Some (PStr (instance a))) ->
  NoDup (map fst (with_build_parameters own a)) /\
  (forall k v, dict_get (build_parameters a) k = Some v -> dict_get (with_build_parameters own a) k = Some v) /\
  (dict_get (with_build_parameters own a) "host" = Some (PStr (instance a)) \/
   dict_get (with_build_parameters own a) "hosts" = Some (PStr (instance a))).
Proof.
  intros Hnd Hh. unfold with_build_parameters.
  split; [apply dict_update_nodup, Hnd|].
  split; [intros k v Hk; rewrite (dict_update_get own _ k (build_parameters_nodup a)), Hk; reflexivity|].
  rewrite !(dict_update_get own _ _ (build_parameters_nodup a)). simpl. exact Hh.
Qed.

Definition example_params_ok (a : Alert) (x : RemediationAction) : Prop :=
  exists own, ra_parameters x = with_build_parameters own a /\ NoDup (map fst own) /\
    (dict_get own "host" = Some (PStr (instance a)) \/ dict_get own "hosts" = Some (PStr (instance a))).

Ltac example_params_tac :=
  repeat match goal with
  | H : In _ [] |- _ => destruct H
  | H : In _ (_ :: _) |- _ => destruct H as [<-|H]
  | H : In _ (_ ++ _) |- _ => apply in_app_or in H; destruct H as [H|H]
  | |- example_params_ok _ _ =>
      eexists; split; [reflexivity|]; split; [repeat constructor; set_solver|simpl; auto]
  end.

Lemma example_handlers_params_ok (a : Alert) (x : RemediationAction) :
  In x (high_cpu_get_actions a ++ disk_space_get_actions a ++
        service_down_get_actions a ++ memory_get_actions a)%list ->
  example_params_ok a x.
Proof.
  unfold high_cpu_get_actions, disk_space_get_actions, service_down_get_actions, memory_get_actions.
  intros H.
  repeat match type of H with
         | context [if ?b then _ else _] => destruct b
         end;
  example_params_tac.
Qed.

(** examples.py [get_actions] of the four example handlers: the action names
    each one returns, by severity and labels; every action they build has
    no duplicate parameter key, carries every parameter of
    [build_parameters] with its value, and targets the alert's instance
    under [host] or [hosts]. *)
Theorem example_handlers_actions (a : Alert) :
  let service := dict_get_or (a_labels a) "service" "" in
  let job := dict_get_or (a_labels a) "job" "" in
  map ra_name (high_cpu_get_actions a) =
    (if String.eqb (severity a) "critical" then
       "identify_high_cpu_process" :: (if String.eqb service "" then [] else ["restart_" ++ service])
     else if String.eqb (severity a) "warning" then ["identify_high_cpu_process"] else []) /\
  map ra_name (disk_space_get_actions a) = ["cleanup_old_logs"; "cleanup_package_cache"] /\
  map ra_name (service_down_get_actions a) =
    (if String.eqb service "" then
       if String.eqb job "" then [] else ["check_" ++ job ++ "_status"; "restart_" ++ job]
     else ["check_" ++ service ++ "_status"; "restart_" ++ service]) /\
  map ra_name (memory_get_actions a) =
    "clear_system_caches" :: (if String.eqb (severity a) "critical" then ["identify_memory_hogs"] else []) /\
  (forall x, In x (high_cpu_get_actions a ++ disk_space_get_actions a ++
                   service_down_get_actions a ++ memory_get_actions a)%list ->
     NoDup (map fst (ra_parameters x)) /\
     (forall k v, dict_get (build_parameters a) k = Some v -> dict_get (ra_parameters x) k = Some v) /\
     (dict_get (ra_parameters x) "host" = Some (PStr (instance a)) \/
      dict_get (ra_parameters x) "hosts" = Some (PStr (instance a)))).
Proof.
  intros service job.
  split.
  { unfold high_cpu_get_actions. fold service. simpl.
    destruct (String.eqb_spec (severity a) "critical") as [->|Hc].
    { simpl. destruct (String.eqb service ""); reflexivity. }
    simpl. destruct (severity a =? "warning"); reflexivity. }
  split; [reflexivity|].
  split.
  { unfold service_down_get_actions. fold service job.
    destruct (String.eqb service "") eqn:Es; simpl; [|rewrite Es; reflexivity].
    destruct (String.eqb job "") eqn:Ej; simpl; rewrite ?Ej; reflexivity. }
  split.
  { unfold memory_get_actions. simpl. destruct (String.eqb (severity a) "critical"); reflexivity. }
  intros x Hx. destruct (example_handlers_params_ok a x Hx) as [own [-> [Hnd Hh]]].
  apply with_build_parameters_spec; assumption.
Qed.

(** engine.py [_execute_action]: the outcome is SUCCESS with no error and
    attempt status "success", or FAILED with an error and attempt status
    "failed"; it is SUCCESS exactly when the execution was submitted and,
    when [timeout > 0], the wait returned "succeeded"; no execution id is
    recorded exactly when the submission raised. *)
Theorem run_action_outcome (client : JobClient) (action : RemediationAction) :
  let '(st, err, exec_id, att_st) := run_action client action in
  ((st = RS_SUCCESS /\ err = None /\ att_st = "success") \/
   (st = RS_FAILED /\ att_st = "failed" /\ exists e, err = Some e)) /\
  (st = RS_SUCCESS <->
   exists id, execute_action client action = inr id /\
     ((ra_timeout action <= 0)%Z \/
      exists stderr, wait_for_execution client id (ra_timeout action) = inr ("succeeded", stderr))) /\
  (exec_id = None <-> exists e, execute_action client action = inl e).
Proof.
  unfold run_action.
  destruct (execute_action client action) as [e|id].
  - destruct e as [m|m]; simpl.
    + split; [right; eauto|]. split; [split; [discriminate|intros [id [H _]]; discriminate]|].
      split; eauto.
    + split; [right; eauto|]. split; [split; [discriminate|intros [id [H _]]; discriminate]|].
      split; eauto.
  - destruct (Z.ltb_spec 0 (ra_timeout action)) as [Ht|Ht].
    + destruct (wait_for_execution client id (ra_timeout action)) as [e|[st stderr]] eqn:Hw.
      * destruct e as [m|m]; simpl;
          (split; [right; eauto|]);
          (split; [split; [discriminate|intros [id' [Hid [Hle|[s Hs]]]]; [lia|injection Hid as <-; congruence]]|]);
          (split; [discriminate|intros [e He]; discriminate]).
      * destruct (String.eqb_spec st "succeeded") as [->|Hne]; simpl.
        -- split; [left; auto|]. split; [split; [intros _; exists id; eauto|reflexivity]|].
           split; [discriminate|intros [e He]; discriminate].
        -- split; [right; eauto|].
           split; [split; [discriminate|intros [id' [Hid [Hle|[s Hs]]]]; [lia|injection Hid as <-; congruence]]|].
           split; [discriminate|intros [e He]; discriminate].
    + simpl. split; [left; auto|]. split; [split; [intros _; exists id; split; [reflexivity|left; exact Ht]|reflexivity]|].
      split; [discriminate|intros [e He]; discriminate].
Qed.

Lemma wait_loop_outcome (polls : nat -> ClientError + (string * option string)) (id : string)
    (timeout pi : Z) (fuel n : nat) (elapsed : Z) :
  match wait_loop polls id timeout pi fuel n elapsed with
  | Some (inr r) => terminal_status r.1 = true /\ exists m, polls m = inr r
  | Some (inl e) =>
      e = StackStormError ("Execution " ++ id ++ " timed out after " ++ pretty timeout ++ "s") \/
      exists m, polls m = inl e
  | None => True
  end.
Proof.
  revert n elapsed. induction fuel as [|f IH]; intros n elapsed; simpl; [exact I|].
  destruct (elapsed <? timeout)%Z; [|left; reflexivity].
  destruct (polls n) as [e|r] eqn:Hp; [right; eauto|].
  destruct (terminal_status r.1) eqn:Ht; [eauto|apply IH].
Qed.

Lemma wait_loop_terminates (polls : nat -> ClientError + (string * option string)) (id : string)
    (timeout pi : Z) (fuel n : nat) (elapsed : Z) :
  (1 <= pi)%Z -> (Z.max 0 (timeout - elapsed) < Z.of_nat fuel)%Z ->
  wait_loop polls id timeout pi fuel n elapsed <> None.
Proof.
  intros Hpi. revert n elapsed. induction fuel as [|f IH]; intros n elapsed Hf; simpl; [lia|].
  destruct (Z.ltb_spec elapsed timeout); [|discriminate].
  destruct (polls n) as [e|r]; [discriminate|].
  destruct (terminal_status r.1); [discriminate|].
  apply IH. lia.
Qed.

Lemma wait_loop_polls_below (polls polls' : nat -> ClientError + (string * option string))
    (id : string) (timeout pi : Z) (fuel n : nat) (elapsed : Z) :
  (1 <= pi)%Z -> (Z.of_nat n <= elapsed)%Z ->
  (forall m, (m < Z.to_nat timeout)%nat -> polls m = polls' m) ->
  wait_loop polls id timeout pi fuel n elapsed = wait_loop polls' id timeout pi fuel n elapsed.
Proof.
  intros Hpi. revert n elapsed. induction fuel as [|f IH]; intros n elapsed Hn Hp; simpl; [reflexivity|].
  destruct (Z.ltb_spec elapsed timeout); [|reflexivity].
  rewrite (Hp n) by lia.
  destruct (polls' n) as [e|r]; [reflexivity|].
  destruct (terminal_status r.1); [reflexivity|].
  apply IH; [lia|exact Hp].
Qed.

(** stackstorm.py [wait_for_execution]: a non-positive timeout raises the
    timeout error at once; a returned result has a terminal status and is
    the answer of a poll; a raised error is the timeout error or a poll's
    error; with [poll_interval >= 1] the loop ends and reads only the polls
    made before [timeout] seconds elapsed. *)
Theorem wait_for_execution_outcome (polls : nat -> ClientError + (string * option string))
    (execution_id : string) (timeout poll_interval : Z) :
  let timed_out := StackStormError ("Execution " ++ execution_id ++ " timed out after "
                                    ++ pretty timeout ++ "s") in
  ((timeout <= 0)%Z ->
   wait_for_execution_impl polls execution_id timeout poll_interval = Some (inl timed_out)) /\
  (forall r, wait_for_execution_impl polls execution_id timeout poll_interval = Some (inr r) ->
     terminal_status r.1 = true /\ exists n, polls n = inr r) /\
  (forall e, wait_for_execution_impl polls execution_id timeout poll_interval = Some (inl e) ->
     e = timed_out \/ exists n, polls n = inl e) /\
  ((1 <= poll_interval)%Z ->
   wait_for_execution_impl polls execution_id timeout poll_interval <> None /\
   forall polls', (forall n, (n < Z.to_nat timeout)%nat -> polls n = polls' n) ->
     wait_for_execution_impl polls' execution_id timeout poll_interval
     = wait_for_execution_impl polls execution_id timeout poll_interval).
Proof.
  intros timed_out. unfold wait_for_execution_impl.
  pose proof (wait_loop_outcome polls execution_id timeout poll_interval (S (Z.to_nat timeout)) 0 0%Z) as Ho.
  split.
  { intros Ht. simpl. destruct (Z.ltb_spec 0 timeout); [lia|reflexivity]. }
  split; [intros r Hr; rewrite Hr in Ho; exact Ho|].
  split; [intros e He; rewrite He in Ho; exact Ho|].
  intros Hpi. split.
  - apply wait_loop_terminates; [exact Hpi|lia].
  - intros polls' Hp. symmetry. apply wait_loop_polls_below; [exact Hpi|simpl; lia|exact Hp].
Qed.


Section Htriple.
Variable Inv : TrackedAlert -> Prop.
Variable L : gmap string bool.
Variable act : gset string.

Lemma htriple_ret {A} (x : A) (Q : A -> Prop) : Q x -> htriple Inv L act (mret x) Q.
Proof. intros HQ s Hs. split; [exact Hs|]. intros y Hy. injection Hy as <-. exact HQ. Qed.

Lemma htriple_raise {A} (e : string) (Q : A -> Prop) : htriple Inv L act (raise e) Q.
Proof. intros s Hs. split; [exact Hs|]. discriminate. Qed.

Lemma htriple_bind {A B} (m : SM EngineSt A) (f : A -> SM EngineSt B) (P : A -> Prop)
    (Q : B -> Prop) :
  htriple Inv L act m P -> (forall x, P x -> htriple Inv L act (f x) Q) -> htriple Inv L act (mbind f m) Q.
Proof.
  intros Hm Hf s Hs. unfold mbind, SM_bind.
  specialize (Hm s Hs). destruct (m s) as [s' [e|x]]; simpl in *; destruct Hm as [Hs' HP].
  - split; [exact Hs'|discriminate].
  - apply Hf; auto.
Qed.

Lemma htriple_now : htriple Inv L act now_utc (fun _ => True).
Proof. intros s Hs. split; [exact Hs|]. auto. Qed.

Lemma htriple_get_alert (fp : string) :
  htriple Inv L act (get_alert fp) (fun o => forall t, o = Some t -> Inv t).
Proof.
  intros s Hs. split; [exact Hs|]. intros o Ho t Ht. simpl in Ho.
  injection Ho as <-. exact (proj1 Hs fp t Ht).
Qed.

Lemma htriple_save (t : TrackedAlert) : Inv t -> htriple Inv L act (save_alert t) (fun _ => True).
Proof.
  intros Ht s [Ha [Hl Hact]]. split; [|auto]. simpl.
  split; [apply map_Forall_insert_2; assumption|]. split; assumption.
Qed.

(** A record predicate that the engine's own record updates keep. *)
Hypothesis I_new : forall eng a now, Inv (new_tracked eng a now).
Hypothesis I_update_status : forall t st ts, Inv t -> Inv (update_status t st ts).
Hypothesis I_set_processed_by : forall t p, Inv t -> Inv (set_processed_by t p).
Hypothesis I_step : forall eng a action t,
  Inv t -> htriple Inv L act (execute_action_step eng a action t) (fun rt => Inv rt.2).

Lemma htriple_execute_all (eng : RemediationEngine) (a : Alert)
    (actions : list RemediationAction) (t : TrackedAlert) :
  Inv t -> htriple Inv L act (execute_all eng a actions t) (fun rt => Inv rt.2).
Proof.
  revert t. induction actions as [|action rest IH]; intros t Ht; simpl.
  - apply htriple_ret. exact Ht.
  - apply (htriple_bind _ _ (fun rt => Inv rt.2)); [apply I_step; exact Ht|].
    intros [r t1] H1. simpl in H1.
    apply (htriple_bind _ _ (fun rt => Inv rt.2)); [apply IH; exact H1|].
    intros [rs t'] H2. apply htriple_ret. exact H2.
Qed.

Lemma htriple_process_locked (eng : RemediationEngine) (a : Alert) (now : nat) (acquired : bool) :
  htriple Inv L act (process_locked eng a now acquired) (fun _ => True).
Proof.
  unfold process_locked. destruct acquired; simpl; [|apply htriple_ret; exact I].
  apply (htriple_bind _ _ _ _ (htriple_get_alert _)). intros found Hfound.
  apply (htriple_bind _ _ Inv).
  { destruct found as [t|].
    - apply htriple_ret. apply Hfound. reflexivity.
    - apply (htriple_bind _ _ (fun _ => True)); [apply htriple_save, I_new|].
      intros _ _. apply htriple_ret, I_new. }
  intros tracked Ht.
  destruct (status_eqb (status tracked) RESOLVED); [apply htriple_ret; exact I|].
  destruct (get_actions_for_alert (eng_registry eng) a) as [e|[|action rest]].
  - apply htriple_raise.
  - apply (htriple_bind _ _ (fun _ => True)); [apply htriple_save, I_update_status, Ht|].
    intros _ _. apply htriple_ret. exact I.
  - set (t1 := set_processed_by _ _).
    assert (Ht1 : Inv t1) by (apply I_set_processed_by, I_update_status, Ht).
    apply (htriple_bind _ _ (fun _ => True)); [apply htriple_save; exact Ht1|]. intros _ _.
    apply (htriple_bind _ _ _ _ (htriple_execute_all eng a (action :: rest) t1 Ht1)).
    intros [results t'] H1. simpl in H1.
    apply (htriple_bind _ _ (fun _ => True)); [apply htriple_now|]. intros ts _.
    apply (htriple_bind _ _ (fun _ => True)); [apply htriple_save, I_update_status, H1|].
    intros _ _. apply htriple_ret. exact I.
Qed.

Lemma htriple_handle_resolved (a : Alert) :
  htriple Inv L act (handle_resolved_alert a) (fun _ => True).
Proof.
  unfold handle_resolved_alert.
  apply (htriple_bind _ _ _ _ (htriple_get_alert _)). intros found Hfound.
  destruct found as [t|]; [|apply htriple_ret; exact I].
  destruct (status_eqb (status t) RESOLVED); [apply htriple_ret; exact I|].
  apply (htriple_bind _ _ (fun _ => True)); [apply htriple_now|]. intros ts _.
  apply (htriple_bind _ _ (fun _ => True)).
  - apply htriple_save, I_update_status. apply Hfound. reflexivity.
  - intros _ _. apply htriple_ret. exact I.
Qed.

End Htriple.

Lemma mem_lock_hygiene {A} (Inv : TrackedAlert -> Prop) (key : string)
    (body : bool -> SM EngineSt A) (s : EngineSt) :
  (forall b L act, htriple Inv L act (body b) (fun _ => True)) ->
  map_Forall (fun _ t => Inv t) (m_alerts (es_store s)) -> no_lock_held (es_store s) ->
  map_Forall (fun _ t => Inv t) (m_alerts (es_store (mem_lock key body s).1)) /\
  no_lock_held (es_store (mem_lock key body s).1).
Proof.
  intros Hb Ha [Hl Hact].
  assert (Hfree : mem_lock_locked (es_store s) key = false).
  { unfold mem_lock_locked. destruct (m_locks (es_store s) !! key) as [[|]|] eqn:E;
      [exfalso; exact (Hl key E)|reflexivity|reflexivity]. }
  rewrite (mem_lock_free key body s Hfree). cbv zeta.
  set (L1 := <[key:=true]> (m_locks (es_store s))).
  set (A1 := {[key]} ∪ m_active_locks (es_store s)).
  set (s1 := set_store s (mkMem (m_alerts (es_store s)) L1 A1)).
  destruct (Hb true L1 A1 s1) as [[Ha2 [Hl2 Hact2]] _].
  { split; [exact Ha|split; reflexivity]. }
  destruct (body true s1) as [s2 r]. simpl in Ha2, Hl2, Hact2.
  rewrite mem_release_locked
    by (unfold mem_lock_locked; rewrite Hl2; unfold L1; rewrite lookup_insert_eq; reflexivity).
  simpl. split; [exact Ha2|]. split.
  - intros k. rewrite Hl2. unfold L1. cbn [m_locks]. destruct (decide (k = key)) as [->|Hne].
    + rewrite lookup_insert_eq. discriminate.
    + rewrite !lookup_insert_ne by congruence. apply Hl.
  - rewrite Hact2. unfold A1. cbn [m_active_locks]. rewrite Hact. set_solver.
Qed.

Lemma process_alert_keeps (Inv : TrackedAlert -> Prop)
    (I_new : forall eng a now, Inv (new_tracked eng a now))
    (I_update_status : forall t st ts, Inv t -> Inv (update_status t st ts))
    (I_set_processed_by : forall t p, Inv t -> Inv (set_processed_by t p))
    (I_step : forall L act eng a action t,
       Inv t -> htriple Inv L act (execute_action_step eng a action t) (fun rt => Inv rt.2))
    (eng : RemediationEngine) (a : Alert) (s : EngineSt) :
  map_Forall (fun _ t => Inv t) (m_alerts (es_store s)) -> no_lock_held (es_store s) ->
  map_Forall (fun _ t => Inv t) (m_alerts (es_store (process_alert eng a s).1)) /\
  no_lock_held (es_store (process_alert eng a s).1).
Proof.
  intros Ha Hn. unfold process_alert, mbind, SM_bind, now_utc. simpl.
  set (s0 := mkEngineSt (es_store s) (S (es_clock s))).
  destruct (a_status a).
  - apply mem_lock_hygiene; [|exact Ha|exact Hn].
    intros b L act. apply htriple_process_locked; auto.
  - destruct (htriple_handle_resolved Inv (m_locks (es_store s)) (m_active_locks (es_store s))
                I_update_status a s0) as [[Ha' [Hl' Hact']] _].
    { split; [exact Ha|split; reflexivity]. }
    split; [exact Ha'|]. destruct Hn as [Hn1 Hn2].
    split; [intros k; rewrite Hl'; apply Hn1|rewrite Hact'; exact Hn2].
Qed.

Lemma process_all_keeps (Inv : TrackedAlert -> Prop)
    (I_new : forall eng a now, Inv (new_tracked eng a now))
    (I_update_status : forall t st ts, Inv t -> Inv (update_status t st ts))
    (I_set_processed_by : forall t p, Inv t -> Inv (set_processed_by t p))
    (I_step : forall L act eng a action t,
       Inv t -> htriple Inv L act (execute_action_step eng a action t) (fun rt => Inv rt.2))
    (eng : RemediationEngine) (l : list Alert) (s : EngineSt) :
  map_Forall (fun _ t => Inv t) (m_alerts (es_store s)) -> no_lock_held (es_store s) ->
  map_Forall (fun _ t => Inv t) (m_alerts (es_store (process_all eng l s).1)) /\
  no_lock_held (es_store (process_all eng l s).1).
Proof.
  revert s. induction l as [|a l IH]; intros s Ha Hn; simpl; [split; assumption|].
  destruct (process_alert_keeps Inv I_new I_update_status I_set_processed_by I_step eng a s Ha Hn)
    as [Ha' Hn'].
  destruct (process_alert eng a s) as [s' r]. apply IH; assumption.
Qed.

Lemma run_action_att_st (client : JobClient) (action : RemediationAction) :
  let '(_, _, _, att_st) := run_action client action in att_st = "success" \/ att_st = "failed".
Proof.
  unfold run_action.
  destruct (execute_action client action) as [[m|m]|id]; [right; reflexivity|right; reflexivity|].
  destruct (0 <? ra_timeout action)%Z; [|left; reflexivity].
  destruct (wait_for_execution client id (ra_timeout action)) as [[m|m]|[st stderr]];
    [right; reflexivity|right; reflexivity|].
  destruct (String.eqb st "succeeded"); [left|right]; reflexivity.
Qed.

Lemma count_status_app (s : string) (l1 l2 : list RemediationAttempt) :
  count_status s (l1 ++ l2) = count_status s l1 + count_status s l2.
Proof. unfold count_status. rewrite List.filter_app, length_app. reflexivity. Qed.

Lemma counters_ok_add (t : TrackedAlert) (att : RemediationAttempt) :
  counters_ok t -> at_status att = "success" \/ at_status att = "failed" ->
  counters_ok (add_remediation_attempt t att).
Proof.
  intros (H1 & H2 & H3 & H4) Hs.
  destruct (add_attempts_counters t [att]) as (E1 & E2 & E3 & E4).
  change (add_attempts t [att]) with (add_remediation_attempt t att) in *.
  unfold counters_ok. rewrite E1, E2, E3, E4, length_app, !count_status_app.
  split; [simpl; lia|]. split; [lia|]. split; [lia|].
  apply Forall_app. split; [exact H4|constructor; [exact Hs|constructor]].
Qed.

Lemma counters_ok_step (L : gmap string bool) (act : gset string) (eng : RemediationEngine)
    (a : Alert) (action : RemediationAction) (t : TrackedAlert) :
  counters_ok t ->
  htriple counters_ok L act (execute_action_step eng a action t) (fun rt => counters_ok rt.2).
Proof.
  intros Ht. unfold execute_action_step.
  apply (htriple_bind _ _ _ _ _ (fun _ => True)); [apply htriple_now|]. intros now _.
  pose proof (run_action_att_st (eng_client eng) action) as Hatt.
  destruct (run_action (eng_client eng) action) as [[[st err] exec_id] att_st].
  apply (htriple_bind _ _ _ _ _ (fun _ => True)); [apply htriple_now|]. intros completed _.
  set (t1 := add_remediation_attempt t _).
  assert (Ht1 : counters_ok t1) by (apply counters_ok_add; [exact Ht|exact Hatt]).
  set (t2 := match err with Some e => _ | None => t1 end).
  assert (Ht2 : counters_ok t2).
  { subst t2. destruct err as [e|]; [destruct (String.eqb e "")|]; exact Ht1. }
  apply (htriple_bind _ _ _ _ _ (fun _ => True)); [apply htriple_save; exact Ht2|].
  intros _ _. apply htriple_ret. exact Ht2.
Qed.

(** engine.py [process_alert] over a sequence of alerts: if every stored
    record has counters agreeing with its attempts and no lock is held,
    then afterwards every stored record still does, so
    [total = successful + failed]. *)
Theorem process_all_counters (eng : RemediationEngine) (l : list Alert) (s : EngineSt) :
  map_Forall (fun _ t => counters_ok t) (m_alerts (es_store s)) ->
  no_lock_held (es_store s) ->
  forall fp t, m_alerts (es_store (process_all eng l s).1) !! fp = Some t ->
    counters_ok t /\ total_attempts t = (successful_attempts t + failed_attempts t)%Z.
Proof.
  intros Ha Hn fp t Ht.
  destruct (process_all_keeps counters_ok) with (eng := eng) (l := l) (s := s)
    as [Ha' _]; try assumption.
  - intros eng' a now. unfold counters_ok. simpl. repeat split; constructor.
  - intros t' st ts H. exact H.
  - intros t' p H. exact H.
  - intros L act eng' a action t' H. apply counters_ok_step. exact H.
  - pose proof (Ha' fp t Ht) as Hc. split; [exact Hc|].
    destruct Hc as (H1 & H2 & H3 & H4).
    pose proof (length_split_status (remediation_attempts t)) as Hl.
    rewrite (filter_other_status_nil _ H4) in Hl. simpl in Hl. lia.
Qed.

(** engine.py [process_alert] with memory.py [lock]: processing any sequence
    of alerts from a store with no lock held leaves no lock held. *)
Theorem process_all_releases_locks (eng : RemediationEngine) (l : list Alert) (s : EngineSt) :
  no_lock_held (es_store s) -> no_lock_held (es_store (process_all eng l s).1).
Proof.
  intros Hn.
  destruct (process_all_keeps (fun _ => True)) with (eng := eng) (l := l) (s := s)
    as [_ Hn']; try assumption; auto.
  - intros L act eng' a action t' _ s' Hs. split; [|auto].
    destruct Hs as [_ [Hl Hact]].
    unfold execute_action_step, mbind, SM_bind, now_utc. simpl.
    destruct (run_action (eng_client eng') action) as [[[st err] exec_id] att_st].
    simpl. split; [intros ? ? ?; exact I|]. split; assumption.
  - intros ? ? ?; exact I.
Qed.

Lemma execute_action_step_run (eng : RemediationEngine) (a : Alert) (action : RemediationAction)
    (t : TrackedAlert) (s : EngineSt) :
  exists r t1 clk, execute_action_step eng a action t s =
    (mkEngineSt (mkMem (<[fingerprint t1 := t1]> (m_alerts (es_store s))) (m_locks (es_store s))
                       (m_active_locks (es_store s))) clk, inr (r, t1)) /\
    rr_action_name r = ra_name action /\
    map at_action_name (remediation_attempts t1)
      = (map at_action_name (remediation_attempts t) ++ [ra_name action])%list /\
    total_attempts t1 = (total_attempts t + 1)%Z /\
    fingerprint t1 = fingerprint t /\ status t1 = status t /\ processed_by t1 = processed_by t.
Proof.
  unfold execute_action_step, mbind, SM_bind, now_utc. simpl.
  destruct (run_action (eng_client eng) action) as [[[st err] exec_id] att_st]. simpl.
  set (t2 := match err with Some e => _ | None => _ end).
  assert (H1 : map at_action_name (remediation_attempts t2)
                 = (map at_action_name (remediation_attempts t) ++ [ra_name action])%list /\
               total_attempts t2 = (total_attempts t + 1)%Z /\
               fingerprint t2 = fingerprint t /\ status t2 = status t /\
               processed_by t2 = processed_by t).
  { subst t2. destruct err as [e|]; [destruct (String.eqb e "")|]; simpl; rewrite map_app; repeat split. }
  eexists _, t2, _. split; [reflexivity|]. split; [reflexivity|exact H1].
Qed.

Lemma execute_all_run (eng : RemediationEngine) (a : Alert) (actions : list RemediationAction)
    (t : TrackedAlert) (s : EngineSt) :
  exists rs t' s', execute_all eng a actions t s = (s', inr (rs, t')) /\
    m_locks (es_store s') = m_locks (es_store s) /\
    m_active_locks (es_store s') = m_active_locks (es_store s) /\
    (forall k, k <> fingerprint t -> m_alerts (es_store s') !! k = m_alerts (es_store s) !! k) /\
    map rr_action_name rs = map ra_name actions /\
    map at_action_name (remediation_attempts t')
      = (map at_action_name (remediation_attempts t) ++ map ra_name actions)%list /\
    total_attempts t' = (total_attempts t + Z.of_nat (length actions))%Z /\
    fingerprint t' = fingerprint t /\ status t' = status t /\ processed_by t' = processed_by t.
Proof.
  revert t s. induction actions as [|action rest IH]; intros t s; simpl.
  - exists [], t, s. split; [reflexivity|]. rewrite app_nil_r.
    repeat split; auto. lia.
  - unfold mbind, SM_bind at 1.
    destruct (execute_action_step_run eng a action t s)
      as (r & t1 & clk & Hstep & Hr & Hnames1 & Htot1 & Hfp1 & Hst1 & Hpb1).
    rewrite Hstep.
    set (s1 := mkEngineSt _ clk).
    destruct (IH t1 s1) as (rs & t' & s' & Hrun & Hl & Hact & Hk & Hrs & Hnames & Htot & Hfp & Hst & Hpb).
    unfold mbind, SM_bind. rewrite Hrun.
    exists (r :: rs), t', s'. split; [reflexivity|].
    split; [exact Hl|]. split; [exact Hact|].
    split.
    { intros k Hne. rewrite Hk by congruence. subst s1. simpl.
      rewrite lookup_insert_ne by congruence. reflexivity. }
    split; [simpl; rewrite Hr, Hrs; reflexivity|].
    split; [rewrite Hnames, Hnames1, <- app_assoc; reflexivity|].
    split; [rewrite Htot, Htot1; simpl length; lia|].
    split; [congruence|]. split; congruence.
Qed.

Lemma save_then {A} (t : TrackedAlert) (k : SM EngineSt A) (s : EngineSt) :
  (save_alert t;; k) s = k (save_alert t s).1.
Proof. reflexivity. Qed.

Lemma remediate_run (eng : RemediationEngine) (a : Alert) (actions : list RemediationAction)
    (t0 : TrackedAlert) (now : nat) (s1 : EngineSt) :
  exists rs t' s',
    (save_alert (set_processed_by (update_status t0 REMEDIATING now) (Some (eng_instance_id eng)));;
     '(results, t') ← execute_all eng a actions
                        (set_processed_by (update_status t0 REMEDIATING now) (Some (eng_instance_id eng)));
     ts ← now_utc;
     save_alert (update_status t' REMEDIATED ts);;
     mret results) s1 = (s', inr rs) /\
    m_locks (es_store s') = m_locks (es_store s1) /\
    m_active_locks (es_store s') = m_active_locks (es_store s1) /\
    m_alerts (es_store s') !! fingerprint t0 = Some t' /\
    (forall k, k <> fingerprint t0 -> m_alerts (es_store s') !! k = m_alerts (es_store s1) !! k) /\
    map rr_action_name rs = map ra_name actions /\
    map at_action_name (remediation_attempts t')
      = (map at_action_name (remediation_attempts t0) ++ map ra_name actions)%list /\
    total_attempts t' = (total_attempts t0 + Z.of_nat (length actions))%Z /\
    status t' = REMEDIATED /\ processed_by t' = Some (eng_instance_id eng).
Proof.
  set (t1 := set_processed_by (update_status t0 REMEDIATING now) (Some (eng_instance_id eng))).
  rewrite save_then.
  set (s2 := (save_alert t1 s1).1).
  destruct (execute_all_run eng a actions t1 s2)
    as (rs & t' & s' & Hrun & Hl & Hact & Hk & Hrs & Hnames & Htot & Hfp & Hst & Hpb).
  assert (Hfp0 : fingerprint t1 = fingerprint t0) by reflexivity.
  unfold mbind at 1, SM_bind at 1. rewrite Hrun.
  unfold mbind, SM_bind, now_utc, save_alert, mret, SM_ret. simpl.
  eexists rs, _, _. split; [reflexivity|]. simpl.
  split; [rewrite Hl; reflexivity|]. split; [rewrite Hact; reflexivity|].
  split; [rewrite Hfp, Hfp0; apply lookup_insert_eq|].
  split.
  { intros k Hne. rewrite lookup_insert_ne by congruence. rewrite Hk by congruence.
    simpl. rewrite lookup_insert_ne by congruence. reflexivity. }
  split; [exact Hrs|]. simpl. rewrite Hnames, Htot. split; [reflexivity|]. split; [reflexivity|].
  split; [reflexivity|]. rewrite Hpb. reflexivity.
Qed.

(** engine.py [process_alert] on a firing alert whose lock is free and whose
    record (if any) is not RESOLVED, with a non-empty list of actions: one
    result per action, the record becomes REMEDIATED and processed by this
    instance, other records are untouched, the lock is released, and one
    attempt per action is appended to the record. *)
Theorem process_alert_runs_actions (eng : RemediationEngine) (a : Alert) (s : EngineSt)
    (actions : list RemediationAction) :
  a_status a = FIRING ->
  mem_lock_locked (es_store s) ("alert:" ++ a_fingerprint a) = false ->
  match m_alerts (es_store s) !! a_fingerprint a with
  | None => True
  | Some t => fingerprint t = a_fingerprint a /\ status t <> RESOLVED
  end ->
  get_actions_for_alert (eng_registry eng) a = inr actions ->
  actions <> [] ->
  let '(s', r) := process_alert eng a s in
  exists rs t', r = inr rs /\ map rr_action_name rs = map ra_name actions /\
    m_alerts (es_store s') !! a_fingerprint a = Some t' /\
    status t' = REMEDIATED /\ processed_by t' = Some (eng_instance_id eng) /\
    (forall k, k <> a_fingerprint a -> m_alerts (es_store s') !! k = m_alerts (es_store s) !! k) /\
    mem_lock_locked (es_store s') ("alert:" ++ a_fingerprint a) = false /\
    match m_alerts (es_store s) !! a_fingerprint a with
    | None => map at_action_name (remediation_attempts t') = map ra_name actions /\
              total_attempts t' = Z.of_nat (length actions)
    | Some t => map at_action_name (remediation_attempts t')
                  = (map at_action_name (remediation_attempts t) ++ map ra_name actions)%list /\
                total_attempts t' = (total_attempts t + Z.of_nat (length actions))%Z
    end.
Proof.
  intros Hf Hl Hrec Hacts Hne. rewrite process_alert_firing by exact Hf.
  set (key := ("alert:" ++ a_fingerprint a)%string) in *.
  destruct s as [[al lk ac] c]. simpl in *.
  rewrite mem_lock_free by exact Hl. cbv zeta.
  set (s1 := set_store _ _).
  destruct actions as [|action rest]; [contradiction|].
  destruct (al !! a_fingerprint a) as [t|] eqn:Hget.
  - destruct Hrec as [Hfp Hst].
    rewrite (process_locked_found _ _ _ _ t) by exact Hget.
    assert (Hb : status_eqb (status t) RESOLVED = false)
      by (destruct (status t); try reflexivity; congruence).
    rewrite Hb, Hacts. cbv zeta.
    destruct (remediate_run eng a (action :: rest) t c s1)
      as (rs & t' & s' & Hrun & Hl' & Hact' & Hget' & Hk & Hrs & Hnames & Htot & Hst' & Hpb).
    rewrite Hrun.
    rewrite mem_release_locked
      by (unfold mem_lock_locked; rewrite Hl'; subst s1; simpl; rewrite lookup_insert_eq; reflexivity).
    simpl. exists rs, t'. split; [reflexivity|]. split; [exact Hrs|].
    split; [rewrite <- Hfp; exact Hget'|]. split; [exact Hst'|]. split; [exact Hpb|].
    split; [intros k Hk'; rewrite Hk by congruence; reflexivity|].
    split; [unfold mem_lock_locked; simpl; rewrite lookup_insert_eq; reflexivity|].
    split; [exact Hnames|exact Htot].
  - rewrite process_locked_new by exact Hget. cbv zeta.
    rewrite save_then. rewrite Hacts. cbv zeta.
    set (s2 := (save_alert (new_tracked eng a c) s1).1).
    destruct (remediate_run eng a (action :: rest) (new_tracked eng a c) c s2)
      as (rs & t' & s' & Hrun & Hl' & Hact' & Hget' & Hk & Hrs & Hnames & Htot & Hst' & Hpb).
    rewrite Hrun.
    rewrite mem_release_locked
      by (unfold mem_lock_locked; rewrite Hl'; subst s2 s1; simpl; rewrite lookup_insert_eq; reflexivity).
    simpl. exists rs, t'. split; [reflexivity|]. split; [exact Hrs|].
    split; [exact Hget'|]. split; [exact Hst'|]. split; [exact Hpb|].
    split.
    { intros k Hk'. rewrite Hk by exact Hk'. subst s2 s1. simpl.
      rewrite lookup_insert_ne by congruence. reflexivity. }
    split; [unfold mem_lock_locked; simpl; rewrite lookup_insert_eq; reflexivity|].
    split; [exact Hnames|rewrite Htot; reflexivity].
Qed.



Lemma prefix_trans (p q s : string) :
  String.prefix p q = true -> String.prefix q s = true -> String.prefix p s = true.
Proof.
  revert q s. induction p as [|c p IH]; intros q s Hpq Hqs; [destruct s; reflexivity|].
  destruct q as [|c' q]; [discriminate|]. destruct s as [|c'' s]; [discriminate|].
  simpl in *. destruct (Ascii.ascii_dec c c') as [->|]; [|discriminate].
  destruct (Ascii.ascii_dec c' c'') as [->|]; [|discriminate].
  apply (IH q s); assumption.
Qed.

Lemma replace_fuel_no_braces (fuel : nat) (old new s : string) :
  String.prefix "{{" old = true -> has_open_braces s = false ->
  replace_fuel fuel old new s = s.
Proof.
  intros Hold. revert s. induction fuel as [|f IH]; intros s Hs; [reflexivity|].
  destruct s as [|c rest]; [reflexivity|].
  assert (Hcons : has_open_braces (String c rest)
                  = String.prefix "{{" (String c rest) || has_open_braces rest) by reflexivity.
  rewrite Hcons in Hs. apply orb_false_iff in Hs as [Hp Hr].
  assert (Hstep : replace_fuel (S f) old new (String c rest)
    = if String.prefix old (String c rest)
      then new ++ replace_fuel f old new
             (substring (String.length old) (String.length (String c rest) - String.length old)
                (String c rest))
      else String c (replace_fuel f old new rest)) by reflexivity.
  rewrite Hstep.
  destruct (String.prefix old (String c rest)) eqn:Ho.
  - rewrite (prefix_trans _ _ _ Hold Ho) in Hp. discriminate.
  - rewrite (IH rest Hr). reflexivity.
Qed.

Lemma py_replace_no_braces (s old new : string) :
  String.prefix "{{" old = true -> has_open_braces s = false -> py_replace s old new = s.
Proof.
  intros Hold Hs. unfold py_replace.
  destruct (String.eqb_spec old ""); [subst; discriminate|].
  apply replace_fuel_no_braces; assumption.
Qed.

Lemma fold_replace_no_braces (s : string) (pre : string) (l : dict string) :
  String.prefix "{{" pre = true -> has_open_braces s = false ->
  fold_left (fun v kv => py_replace v (pre ++ kv.1 ++ "}}") kv.2) l s = s.
Proof.
  intros Hpre Hs. induction l as [|[k v] l IH]; simpl; [reflexivity|].
  rewrite py_replace_no_braces; [exact IH| |exact Hs].
  apply (prefix_trans _ pre); [exact Hpre|].
  clear. induction pre as [|c pre IH]; [simpl; destruct (k ++ "}}"); reflexivity|]. simpl.
  destruct (Ascii.ascii_dec c c); [exact IH|contradiction].
Qed.

Lemma apply_templates_keys (p acc : dict PValue) (a : Alert) :
  NoDup (map fst acc ++ map fst p)%list ->
  map fst (fold_left (fun result kv => dict_set result kv.1 (template_value a kv.2)) p acc)
  = (map fst acc ++ map fst p)%list.
Proof.
  revert acc. induction p as [|[k v] p IH]; intros acc Hnd; simpl; [rewrite app_nil_r; reflexivity|].
  assert (Hk : dict_mem acc k = false).
  { unfold dict_mem. rewrite dict_get_not_key; [reflexivity|].
    intros Hin. apply NoDup_app in Hnd as [_ [Hdis _]]. apply (Hdis k Hin). simpl. left. }
  rewrite IH.
  - rewrite dict_set_map_fst, Hk, <- app_assoc. reflexivity.
  - rewrite dict_set_map_fst, Hk, <- app_assoc. exact Hnd.
Qed.

(** yaml_config.py [_apply_templates]: on parameters without duplicate
    keys, the keys keep their order, each value is templated by itself,
    a string without "{{" is unchanged, and a non-string value is
    unchanged. *)
Theorem apply_templates_spec (p : dict PValue) (a : Alert) :
  NoDup (map fst p) ->
  map fst (apply_templates p a) = map fst p /\
  (forall k, dict_get (apply_templates p a) k = option_map (template_value a) (dict_get p k)) /\
  (forall k s, dict_get p k = Some (PStr s) -> has_open_braces s = false ->
     dict_get (apply_templates p a) k = Some (PStr s)) /\
  (forall k v, dict_get p k = Some v -> (forall s, v <> PStr s) ->
     dict_get (apply_templates p a) k = Some v).
Proof.
  intros Hnd.
  split; [apply (apply_templates_keys p [] a); exact Hnd|].
  split; [intros k; apply apply_templates_get; exact Hnd|].
  split.
  - intros k s Hk Hs. rewrite apply_templates_get, Hk by exact Hnd. simpl.
    unfold template_string.
    rewrite (py_replace_no_braces s "{{alertname}}") by (reflexivity || exact Hs).
    rewrite (py_replace_no_braces s "{{instance}}") by (reflexivity || exact Hs).
    rewrite (py_replace_no_braces s "{{severity}}") by (reflexivity || exact Hs).
    rewrite (fold_replace_no_braces s "{{labels.") by (reflexivity || exact Hs).
    rewrite (fold_replace_no_braces s "{{annotations.") by (reflexivity || exact Hs).
    reflexivity.
  - intros k v Hk Hv. rewrite apply_templates_get, Hk by exact Hnd. simpl.
    destruct v as [s| | | |]; try reflexivity. exfalso. exact (Hv s eq_refl).
Qed.

Lemma fetch_alerts_run (fps : list string) (db : RedisDB) :
  rd_connected db = true ->
  fetch_alerts fps db =
    (db, inr (flat_map (fun fp => match rd_strings db !! alert_key fp with
                                  | Some (t, _) => [t]
                                  | None => []
                                  end) fps)).
Proof.
  intros Hc. induction fps as [|fp rest IH]; [reflexivity|].
  simpl. unfold mbind, SM_bind at 1. unfold rd_get_alert, redis_get. rewrite Hc. simpl.
  unfold SM_bind at 1. rewrite IH. simpl.
  destruct (rd_strings db !! alert_key fp) as [[t ttl]|]; reflexivity.
Qed.

(** redis_store.py [list_alerts] on a connected client, with non-negative
    [offset] and [limit]: it returns records sorted by [received_at]
    descending, at most [limit] of them, each one stored under some alert
    key. *)
Theorem rd_list_alerts_spec (db : RedisDB) (status_arg : option string) (limit offset : Z) :
  rd_connected db = true -> (0 <= offset)%Z -> (0 <= limit)%Z ->
  exists r, rd_list_alerts status_arg limit offset db = (db, inr r) /\
    sorted_desc r = true /\
    (length r <= Z.to_nat limit)%nat /\
    forall t, In t r -> exists fp ttl, rd_strings db !! alert_key fp = Some (t, ttl).
Proof.
  intros Hc Ho Hl. unfold rd_list_alerts. rewrite Hc. simpl.
  set (page := py_slice _ offset (offset + limit)).
  unfold mbind, SM_bind. rewrite (fetch_alerts_run page db Hc).
  set (fetched := flat_map _ page).
  eexists. split; [reflexivity|].
  split; [apply sort_received_desc_sorted|].
  split.
  - rewrite (Permutation_length (sort_received_desc_perm fetched)).
    assert (Hle : (length fetched <= length page)%nat).
    { subst fetched. clear. induction page as [|fp rest IH]; simpl; [lia|].
      destruct (rd_strings db !! alert_key fp) as [[t ttl]|]; simpl; lia. }
    subst page. rewrite py_slice_length in Hle by assumption. lia.
  - intros t Hin. apply (Permutation_in _ (sort_received_desc_perm fetched)) in Hin.
    subst fetched. apply in_flat_map in Hin as [fp [_ Hfp]].
    exists fp. destruct (rd_strings db !! alert_key fp) as [[t' ttl]|] eqn:E; [|destruct Hfp].
    destruct Hfp as [<-|[]]. exists ttl. reflexivity.
Qed.


Lemma rd_save_get_delete_witness :
  rd_connected ex_rdb = true /\
  (status (ex_tracked RESOLVED (Some 5)) = RESOLVED -> rd_ttl_ok ex_rdb = true) /\
  (let t := ex_tracked RESOLVED (Some 5) in
   let db1 := (rd_save_alert t ex_rdb).1 in
   let db2 := (rd_delete_alert "fp1" ex_rdb).1 in
   (rd_save_alert t ex_rdb).2 = inr () /\
   (rd_get_alert (fingerprint t) db1).2 = inr (Some t) /\
   (forall fp', fp' <> fingerprint t -> (rd_get_alert fp' db1).2 = (rd_get_alert fp' ex_rdb).2) /\
   option_map snd (rd_strings db1 !! alert_key (fingerprint t))
     = Some (if status_eqb (status t) RESOLVED then Some (rd_alert_ttl_hours ex_rdb * 3600)%Z else None) /\
   (forall st, fingerprint t ∈ smembers db1 (index_key (status_value st)) <-> st = status t) /\
   (rd_delete_alert "fp1" ex_rdb).2
     = inr (match rd_strings ex_rdb !! alert_key "fp1" with Some _ => true | None => false end) /\
   (rd_get_alert "fp1" db2).2 = inr None /\
   (forall st, "fp1" ∉ smembers db2 (index_key (status_value st)))).
Proof.
  assert (Hok : status (ex_tracked RESOLVED (Some 5)) = RESOLVED -> rd_ttl_ok ex_rdb = true)
    by (intros _; vm_compute; reflexivity).
  split; [reflexivity|]. split; [exact Hok|].
  exact (rd_save_get_delete ex_rdb (ex_tracked RESOLVED (Some 5)) "fp1" eq_refl Hok).
Defined.

Lemma rd_resolved_expiry_witness :
  rd_connected (mkRedisDB true ∅ ∅ 0 0) = true /\
  (let db := mkRedisDB true ∅ ∅ 0 0 in
   let t := ex_tracked RESOLVED (Some 5) in
   let db1 := (rd_save_alert t db).1 in
   let db2 := redis_expire (alert_key (fingerprint t)) db1 in
   (status t <> RESOLVED -> db2 = db1) /\
   (status t = RESOLVED -> rd_ttl_ok db = true ->
      (rd_get_alert (fingerprint t) db2).2 = inr None /\
      fingerprint t ∈ smembers db2 (index_key (status_value RESOLVED)) /\
      rd_count_index db2 = rd_count_index db1) /\
   ((rd_alert_ttl_hours db <= 0)%Z -> rd_ttl_ok db = false) /\
   (status t = RESOLVED -> rd_ttl_ok db = false ->
      exists e, rd_save_alert t db = (db, inl e) /\
        (LLONG_MIN <= rd_alert_ttl_hours db * 3600 <= LLONG_MAX ->
         e = "ResponseError: invalid expire time in 'setex' command")%Z)).
Proof.
  split; [reflexivity|].
  exact (rd_resolved_expiry (mkRedisDB true ∅ ∅ 0 0) (ex_tracked RESOLVED (Some 5)) eq_refl).
Defined.

Lemma load_all_mappings_result_witness :
  (forall doc, In (Loaded doc) (ex_mapping_files ++ [Loaded (YList [YStr "x"])])%list ->
     yaml_wf doc = true) /\
  match load_all_mappings true ex_mapping_files [Loaded (YList [YStr "x"])] with
  | inl e =>
      true = true /\
      exists pre f post,
        (ex_mapping_files ++ [Loaded (YList [YStr "x"])])%list = (pre ++ f :: post)%list /\
        (forall g, In g pre -> exists x, file_alert_items g = inr x) /\
        file_alert_items f = inl e /\
        (f = LoadRaises e \/
         exists doc, f = Loaded doc /\ py_truthy doc = true /\
           ((e = "TypeError" /\ forall d, doc <> YDict d) \/
            (e = "AttributeError" /\ exists d v, doc = YDict d /\ dict_get d "alerts" = Some v /\
                                     forall items, v <> YDict items)))
  | inr m =>
      NoDup (map fst m) /\
      (true = false -> m = []) /\
      (true = true ->
         (forall f, In f (ex_mapping_files ++ [Loaded (YList [YStr "x"])])%list ->
            exists x, file_alert_items f = inr x) /\
         forall k, dict_get m k = last_defined (ex_mapping_files ++ [Loaded (YList [YStr "x"])])%list k None)
  end.
Proof.
  assert (H : forall doc, In (Loaded doc) (ex_mapping_files ++ [Loaded (YList [YStr "x"])])%list ->
                yaml_wf doc = true).
  { intros doc Hd. simpl in Hd.
    destruct Hd as [Hd|[Hd|[Hd|[]]]]; injection Hd as <-; vm_compute; reflexivity. }
  split; [exact H|]. exact (load_all_mappings_result true _ _ H).
Defined.

Lemma process_all_counters_witness :
  map_Forall (fun _ t => counters_ok t) (m_alerts (es_store (ex_store ∅ ∅))) /\
  no_lock_held (es_store (ex_store ∅ ∅)) /\
  forall fp t,
    m_alerts (es_store (process_all (ex_engine [("h", ex_handler)]) [ex_alert FIRING] (ex_store ∅ ∅)).1)
      !! fp = Some t ->
    counters_ok t /\ total_attempts t = (successful_attempts t + failed_attempts t)%Z.
Proof.
  assert (H1 : map_Forall (fun _ t => counters_ok t) (m_alerts (es_store (ex_store ∅ ∅))))
    by apply map_Forall_empty.
  assert (H2 : no_lock_held (es_store (ex_store ∅ ∅))).
  { split; [intros k; simpl; rewrite lookup_empty; discriminate|reflexivity]. }
  split; [exact H1|]. split; [exact H2|].
  exact (process_all_counters (ex_engine [("h", ex_handler)]) [ex_alert FIRING] (ex_store ∅ ∅) H1 H2).
Defined.

Lemma process_all_releases_locks_witness :
  no_lock_held (es_store (ex_store ∅ ∅)) /\
  no_lock_held (es_store (process_all (ex_engine [("h", ex_handler)])
                                      [ex_alert FIRING; ex_alert RESOLVED_] (ex_store ∅ ∅)).1).
Proof.
  assert (H : no_lock_held (es_store (ex_store ∅ ∅))).
  { split; [intros k; simpl; rewrite lookup_empty; discriminate|reflexivity]. }
  split; [exact H|].
  exact (process_all_releases_locks (ex_engine [("h", ex_handler)]) [ex_alert FIRING; ex_alert RESOLVED_]
           (ex_store ∅ ∅) H).
Defined.

Lemma process_alert_runs_actions_witness :
  a_status (ex_alert FIRING) = FIRING /\
  mem_lock_locked (es_store (ex_store ∅ ∅)) ("alert:" ++ a_fingerprint (ex_alert FIRING)) = false /\
  get_actions_for_alert (eng_registry (ex_engine [("h", ex_handler)])) (ex_alert FIRING)
    = inr [ex_built_action] /\
  (let eng := ex_engine [("h", ex_handler)] in
   let a := ex_alert FIRING in
   let s := ex_store ∅ ∅ in
   let actions := [ex_built_action] in
   let '(s', r) := process_alert eng a s in
   exists rs t', r = inr rs /\ map rr_action_name rs = map ra_name actions /\
     m_alerts (es_store s') !! a_fingerprint a = Some t' /\
     status t' = REMEDIATED /\ processed_by t' = Some (eng_instance_id eng) /\
     (forall k, k <> a_fingerprint a -> m_alerts (es_store s') !! k = m_alerts (es_store s) !! k) /\
     mem_lock_locked (es_store s') ("alert:" ++ a_fingerprint a) = false /\
     match m_alerts (es_store s) !! a_fingerprint a with
     | None => map at_action_name (remediation_attempts t') = map ra_name actions /\
               total_attempts t' = Z.of_nat (length actions)
     | Some t => map at_action_name (remediation_attempts t')
                   = (map at_action_name (remediation_attempts t) ++ map ra_name actions)%list /\
                 total_attempts t' = (total_attempts t + Z.of_nat (length actions))%Z
     end).
Proof.
  split; [reflexivity|]. split; [reflexivity|]. split; [vm_compute; reflexivity|].
  apply (process_alert_runs_actions (ex_engine [("h", ex_handler)]) (ex_alert FIRING) (ex_store ∅ ∅)
           [ex_built_action]).
  - reflexivity.
  - reflexivity.
  - simpl. exact I.
  - vm_compute. reflexivity.
  - discriminate.
Defined.

Lemma apply_templates_spec_witness :
  NoDup (map fst [("host", PStr "{{instance}}"); ("count", PInt 3)]) /\
  (let p := [("host", PStr "{{instance}}"); ("count", PInt 3)] in
   let a := ex_alert FIRING in
   map fst (apply_templates p a) = map fst p /\
   (forall k, dict_get (apply_templates p a) k = option_map (template_value a) (dict_get p k)) /\
   (forall k s, dict_get p k = Some (PStr s) -> has_open_braces s = false ->
      dict_get (apply_templates p a) k = Some (PStr s)) /\
   (forall k v, dict_get p k = Some v -> (forall s, v <> PStr s) ->
      dict_get (apply_templates p a) k = Some v)).
Proof.
  assert (H : NoDup (map fst [("host", PStr "{{instance}}"); ("count", PInt 3)])).
  { simpl. repeat constructor; set_solver. }
  split; [exact H|]. exact (apply_templates_spec _ (ex_alert FIRING) H).
Defined.

Lemma rd_list_alerts_spec_witness :
  rd_connected ex_rdb = true /\ (0 <= 0)%Z /\ (0 <= 10)%Z /\
  exists r, rd_list_alerts None 10 0 ex_rdb = (ex_rdb, inr r) /\
    sorted_desc r = true /\
    (length r <= Z.to_nat 10)%nat /\
    forall t, In t r -> exists fp ttl, rd_strings ex_rdb !! alert_key fp = Some (t, ttl).
Proof.
  split; [reflexivity|]. split; [lia|]. split; [lia|].
  apply rd_list_alerts_spec; [reflexivity|lia|lia].
Defined.
